(** * TB2J.pauli: Pauli decomposition of spin-doubled matrices

    A shallow embedding of [TB2J/pauli.py].  Arrays are two-dimensional and
    carry their shape, as [numpy.ndarray] does.  In the main model the array
    entries are exact complex numbers with rational real and imaginary
    parts, so every identity proved of it is an identity of exact
    arithmetic.  Two further models cover what the exact entries leave out:
    [Binary64] computes with binary64 floating-point numbers, where the round
    trips of the module are only approximate, and [Typed] pairs an array
    with its element type, which decides what the single-axis helpers store
    into [zeros_like(M)]. *)

From Stdlib Require Import ZArith QArith Qcanon Field.
From Stdlib Require PrimFloat.
From stdpp Require Import base numbers list gmap.

(** ** Complex scalars *)

Record complex := Cplx { re : Qc; im : Qc }.

#[global] Instance complex_eq_dec : EqDecision complex.
Proof. solve_decision. Defined.

Declare Scope cx_scope.
Delimit Scope cx_scope with C.
Bind Scope cx_scope with complex.

Definition Czero : complex := Cplx 0 0.
Definition Cone : complex := Cplx 1 0.
(** The literal [1j]. *)
Definition Ci : complex := Cplx 0 1.

Definition Cadd (a b : complex) : complex :=
  Cplx (re a + re b) (im a + im b).
Definition Csub (a b : complex) : complex :=
  Cplx (re a - re b) (im a - im b).
Definition Copp (a : complex) : complex :=
  Cplx (- re a) (- im a).
Definition Cmul (a b : complex) : complex :=
  Cplx (re a * re b - im a * im b) (re a * im b + im a * re b).
(** Division of a complex entry by a real scalar ([/ 2], [/ 2.0]). *)
Definition Cdivr (a : complex) (q : Qc) : complex :=
  Cplx (re a / q) (im a / q).

(** The complex literal [a + b j] with integer parts. *)
Definition Cint (a b : Z) : complex :=
  Cplx (Q2Qc (inject_Z a)) (Q2Qc (inject_Z b)).

Infix "+" := Cadd : cx_scope.
Infix "-" := Csub : cx_scope.
Infix "*" := Cmul : cx_scope.
Notation "- a" := (Copp a) : cx_scope.

(** [numpy.sign] on a real number. *)
Definition Qc_sign (q : Qc) : Qc :=
  if decide (q = 0%Qc) then 0%Qc
  else if Qclt_le_dec 0 q then 1%Qc else (-1)%Qc.

(** [numpy.sign] on a complex scalar, as the 1.x releases of the library
    define it: the sign of the real part, or of the imaginary part when the
    real part is zero, returned as a complex number. *)
Definition np_sign (z : complex) : complex :=
  if decide (re z = 0%Qc) then Cplx (Qc_sign (im z)) 0
  else Cplx (Qc_sign (re z)) 0.

(** ** Exceptions and fallible results *)

Inductive exn :=
  | TypeError | ValueError | KeyError | AssertionError
  | NotImplementedError | IndexError | SystemError.

#[global] Instance exn_eq_dec : EqDecision exn.
Proof. solve_decision. Defined.

Inductive result (A : Type) :=
  | Ok (a : A)
  | Raise (e : exn).
Arguments Ok {A} a.
Arguments Raise {A} e.

#[global] Instance result_eq_dec `{EqDecision A} : EqDecision (result A).
Proof. solve_decision. Defined.

Definition rbind {A B} (r : result A) (k : A → result B) : result B :=
  match r with
  | Ok a => k a
  | Raise e => Raise e
  end.

Declare Scope result_scope.
Delimit Scope result_scope with R.
Notation "x ← r ; k" := (rbind r (λ x, k))
  (at level 20, r at level 100, k at level 200, only parsing) : result_scope.
Notation "' p ← r ; k" := (rbind r (λ x, let 'p := x in k))
  (at level 20, p pattern, r at level 100, k at level 200, only parsing)
  : result_scope.

Definition is_ok {A} (r : result A) : Prop := ∃ a, r = Ok a.

(** ** Two-dimensional arrays *)

Record ndarray := NDArray {
  nrows : nat;
  ncols : nat;
  rows : list (list complex)
}.

#[global] Instance ndarray_eq_dec : EqDecision ndarray.
Proof. solve_decision. Defined.

(** The representation invariant: the row list agrees with the shape. *)
Definition wf (A : ndarray) : Prop :=
  length (rows A) = nrows A ∧ Forall (λ r, length r = ncols A) (rows A).

(** [np.array(l)] for a literal list of rows. *)
Definition np_array (l : list (list complex)) : ndarray :=
  NDArray (length l) (length (default [] (head l))) l.

Definition np_full (r c : nat) (x : complex) : ndarray :=
  NDArray r c (replicate r (replicate c x)).
Definition np_zeros (r c : nat) : ndarray := np_full r c Czero.

(** [np.ones((r, c), dtype='complex')]: a negative dimension is refused. *)
Definition np_ones (r c : Z) : result ndarray :=
  if decide (r < 0 ∨ c < 0)%Z then Raise ValueError
  else Ok (np_full (Z.to_nat r) (Z.to_nat c) Cone).

Definition zeros_like (A : ndarray) : ndarray :=
  np_zeros (nrows A) (ncols A).

Definition np_map (f : complex → complex) (A : ndarray) : ndarray :=
  NDArray (nrows A) (ncols A) (fmap (M:=list) f <$> rows A).

(** [A * c] and [A / q] for a scalar on the right. *)
Definition np_scale (A : ndarray) (c : complex) : ndarray :=
  np_map (λ x, Cmul x c) A.
Definition np_divr (A : ndarray) (q : Qc) : ndarray :=
  np_map (λ x, Cdivr x q) A.

(** *** Shapes as Python objects

    [M.shape] is a tuple; [np.array(M.shape)] is an integer array.  Floor
    division by an integer is defined on the array and undefined on the
    tuple. *)

Inductive pyobj :=
  | PyTuple (l : list Z)
  | PyIntArray (l : list Z).

Definition shape (A : ndarray) : pyobj :=
  PyTuple [Z.of_nat (nrows A); Z.of_nat (ncols A)].

Definition np_array_of (o : pyobj) : pyobj :=
  match o with
  | PyTuple l => PyIntArray l
  | PyIntArray l => PyIntArray l
  end.

Definition py_floordiv (o : pyobj) (k : Z) : result pyobj :=
  match o with
  | PyTuple _ => Raise TypeError
  | PyIntArray l => Ok (PyIntArray ((λ x, x `div` k)%Z <$> l))
  end.

(** [a, b = o] *)
Definition unpack2 (o : pyobj) : result (Z * Z) :=
  match o with
  | PyTuple [a; b] | PyIntArray [a; b] => Ok (a, b)
  | _ => Raise ValueError
  end.

(** *** Basic slicing with unit step *)

(** The position a slice bound [n] denotes in a sequence of length [len]:
    negative bounds count from the end, and everything is clamped. *)
Definition slice_index (n : Z) (len : nat) : nat :=
  Z.to_nat (if decide (n < 0)%Z then Z.max 0 (n + Z.of_nat len)
            else Z.min n (Z.of_nat len)).

(** A slice [lo:hi] with either bound possibly omitted. *)
Definition slice : Type := option Z * option Z.
Definition upto (n : Z) : slice := (None, Some n).
Definition from (n : Z) : slice := (Some n, None).

Definition slice_start (s : slice) (len : nat) : nat :=
  from_option (λ n, slice_index n len) 0 s.1.
Definition slice_stop (s : slice) (len : nat) : nat :=
  from_option (λ n, slice_index n len) len s.2.
Definition slice_len (s : slice) (len : nat) : nat :=
  slice_stop s len - slice_start s len.

Definition py_slice {A} (s : slice) (len : nat) (l : list A) : list A :=
  take (slice_len s len) (drop (slice_start s len) l).

(** [A[rs, cs]] *)
Definition getitem (A : ndarray) (rs cs : slice) : ndarray :=
  NDArray (slice_len rs (nrows A)) (slice_len cs (ncols A))
          (py_slice cs (ncols A) <$> py_slice rs (nrows A) (rows A)).

(** *** Element-wise operations with broadcasting *)

Definition bdim (a b : nat) : option nat :=
  if decide (a = b) then Some a
  else if decide (a = 1) then Some b
  else if decide (b = 1) then Some a
  else None.

(** A length-one axis is repeated to the broadcast length. *)
Definition stretch {A} (n : nat) (l : list A) : list A :=
  match l with
  | [x] => replicate n x
  | _ => l
  end.

Definition broadcast_rows (r c : nat) (A : ndarray) : list (list complex) :=
  stretch r (stretch c <$> rows A).

Definition np_binop (f : complex → complex → complex) (A B : ndarray)
  : result ndarray :=
  match bdim (nrows A) (nrows B), bdim (ncols A) (ncols B) with
  | Some r, Some c =>
      Ok (NDArray r c (zip_with (zip_with f) (broadcast_rows r c A)
                                             (broadcast_rows r c B)))
  | _, _ => Raise ValueError
  end.

Definition np_add := np_binop Cadd.
Definition np_sub := np_binop Csub.
Definition np_mul := np_binop Cmul.

(** *** Reductions, products and stacking *)

Definition Csum (l : list complex) : complex := foldl Cadd Czero l.

Fixpoint diagonal (i : nat) (rs : list (list complex)) : list complex :=
  match rs with
  | [] => []
  | r :: rs' =>
      match r !! i with
      | Some x => x :: diagonal (S i) rs'
      | None => []
      end
  end.

Definition np_trace (A : ndarray) : complex := Csum (diagonal 0 (rows A)).

Definition np_sum (A : ndarray) : complex := Csum (concat (rows A)).

(** One row of a matrix product: the combination of the rows of [B] with the
    entries of [a] as coefficients. *)
Definition row_times (c : nat) (a : list complex) (B : list (list complex))
  : list complex :=
  foldl (zip_with Cadd) (replicate c Czero)
        (zip_with (λ x r, Cmul x <$> r) a B).

(** [A.dot(B)] *)
Definition np_dot (A B : ndarray) : result ndarray :=
  if decide (ncols A = nrows B) then
    Ok (NDArray (nrows A) (ncols B)
                ((λ a, row_times (ncols B) a (rows B)) <$> rows A))
  else Raise ValueError.

Definition transpose (A : ndarray) : ndarray :=
  NDArray (ncols A) (nrows A)
          ((λ j, (λ r, default Czero (r !! j)) <$> rows A) <$> seq 0 (ncols A)).

Definition hstack (A B : ndarray) : result ndarray :=
  if decide (nrows A = nrows B) then
    Ok (NDArray (nrows A) (ncols A + ncols B)
                (zip_with app (rows A) (rows B)))
  else Raise ValueError.

Definition vstack (A B : ndarray) : result ndarray :=
  if decide (ncols A = ncols B) then
    Ok (NDArray (nrows A + nrows B) (ncols A) (rows A ++ rows B))
  else Raise ValueError.

(** [np.block([[A, B], [C, D]])] *)
Definition np_block (A B C D : ndarray) : result ndarray :=
  (top ← hstack A B;
   bot ← hstack C D;
   vstack top bot)%R.

(** [A[i, j]] with non-negative indices. *)
Definition item (A : ndarray) (i j : nat) : result complex :=
  match rows A !! i with
  | Some r => match r !! j with
              | Some x => Ok x
              | None => Raise IndexError
              end
  | None => Raise IndexError
  end.

(** ** The module [TB2J.pauli] *)

Definition s0 : ndarray := np_array [[Cone; Czero]; [Czero; Cone]].
Definition s1 : ndarray := np_array [[Czero; Cone]; [Cone; Czero]].
Definition s2 : ndarray := np_array [[Czero; Copp Ci]; [Ci; Czero]].
Definition s3 : ndarray := np_array [[Cone; Czero]; [Czero; Copp Cone]].

Definition s0T : ndarray := transpose s0.
Definition s1T : ndarray := transpose s1.
Definition s2T : ndarray := transpose s2.
Definition s3T : ndarray := transpose s3.

Definition pauli_dict : gmap Z ndarray :=
  {[ 0%Z := s0; 1%Z := s1; 2%Z := s2; 3%Z := s3 ]}.

(** [d[k]] on a dictionary. *)
Definition dict_get {V} (d : gmap Z V) (k : Z) : result V :=
  match d !! k with
  | Some v => Ok v
  | None => Raise KeyError
  end.

(** [assert b] *)
Definition py_assert (b : bool) : result unit :=
  if b then Ok () else Raise AssertionError.

Definition pauli_mat (nbasis i : Z) : result ndarray :=
  (let N := (nbasis `div` 2)%Z in
   _ ← py_assert (bool_decide (N * 2 = nbasis)%Z);
   M ← np_ones N N;
   spm ← dict_get pauli_dict i;
   c00 ← item spm 0 0;
   c01 ← item spm 0 1;
   c10 ← item spm 1 0;
   c11 ← item spm 1 1;
   np_block (np_scale M c00) (np_scale M c01)
            (np_scale M c10) (np_scale M c11))%R.

(** The scalar [x / 2]. *)
Definition half (x : complex) : complex := Cdivr x 2.

Definition pauli_decomp (M : ndarray)
  : result (complex * complex * complex * complex) :=
  (p0 ← np_dot s0 M;
   p1 ← np_dot s1 M;
   p2 ← np_dot s2 M;
   p3 ← np_dot s3 M;
   Ok (half (np_trace p0), half (np_trace p1),
       half (np_trace p2), half (np_trace p3)))%R.

Definition pauli_decomp2 (M : ndarray)
  : result (complex * complex * complex * complex) :=
  (p0 ← np_mul M s0T;
   p1 ← np_mul M s1T;
   p2 ← np_mul M s2T;
   p3 ← np_mul M s3T;
   Ok (half (np_sum p0), half (np_sum p1),
       half (np_sum p2), half (np_sum p3)))%R.

Definition pauli_block (M : ndarray) (idim : Z) : result ndarray :=
  (half_shape ← py_floordiv (shape M) 2;
   '(norb1, norb2) ← unpack2 half_shape;
   if decide (idim = 0)%Z then
     t ← np_add (getitem M (upto norb1) (upto norb2))
                (getitem M (from norb1) (from norb2));
     Ok (np_divr t 2)
   else if decide (idim = 1)%Z then
     t ← np_add (getitem M (upto norb1) (from norb2))
                (getitem M (from norb1) (upto norb2));
     Ok (np_divr t 2)
   else if decide (idim = 2)%Z then
     t ← np_add (np_scale (getitem M (upto norb1) (from norb2)) Ci)
                (np_scale (getitem M (from norb1) (upto norb2)) (Copp Ci));
     Ok (np_divr t 2)
   else if decide (idim = 3)%Z then
     t ← np_sub (getitem M (upto norb1) (upto norb2))
                (getitem M (from norb1) (from norb2));
     Ok (np_divr t 2)
   else Raise NotImplementedError)%R.

Definition pauli_block_all (M : ndarray)
  : result (ndarray * ndarray * ndarray * ndarray) :=
  (half_shape ← py_floordiv (np_array_of (shape M)) 2;
   '(norb1, norb2) ← unpack2 half_shape;
   tI ← np_add (getitem M (upto norb1) (upto norb2))
               (getitem M (from norb1) (from norb2));
   let MI := np_divr tI 2 in
   tx ← np_add (getitem M (upto norb1) (from norb2))
               (getitem M (from norb1) (upto norb2));
   let Mx := np_divr tx 2 in
   ty ← np_add (np_scale (getitem M (upto norb1) (from norb2)) Ci)
               (np_scale (getitem M (from norb1) (upto norb2)) (Copp Ci));
   let My := np_divr ty 2 in
   tz ← np_sub (getitem M (upto norb1) (upto norb2))
               (getitem M (from norb1) (from norb2));
   let Mz := np_divr tz 2 in
   Ok (MI, Mx, My, Mz))%R.

Definition pauli_block_sigma_norm (M : ndarray) : result ndarray :=
  ('(MI, Mx, My, Mz) ← pauli_block_all M;
   Ok (np_scale Mz (np_sign (np_trace Mz))))%R.

(** ** Arrays as objects in a store

    The functions above compute with array values.  To speak about what a
    call does to the arrays it is given, the same functions are written once
    more over a store of array objects: a name bound to an array is a
    location, [zeros_like] and every arithmetic result bound to a name
    allocate, a basic slice or [.T] reads through to the array it views, and
    an assignment to a slice writes into the array it is taken from. *)

Module Store.

Definition loc := positive.
Abbreviation heap := (gmap loc ndarray).

(** A computation takes a store to a store and a result or an exception. *)
Definition prog (A : Type) : Type := heap → heap * result A.

Definition unit_ {A} (a : A) : prog A := λ h, (h, Ok a).

Definition lift {A} (r : result A) : prog A := λ h, (h, r).

Definition bind {A B} (m : prog A) (k : A → prog B) : prog B :=
  λ h, match m h with
       | (h', Ok a) => k a h'
       | (h', Raise e) => (h', Raise e)
       end.

Declare Scope prog_scope.
Delimit Scope prog_scope with P.
Notation "x ← m ; k" := (bind m (λ x, k))
  (at level 20, m at level 100, k at level 200, only parsing) : prog_scope.
Notation "' p ← m ; k" := (bind m (λ x, let 'p := x in k))
  (at level 20, p pattern, m at level 100, k at level 200, only parsing)
  : prog_scope.

(** A new array object holding [v]. *)
Definition alloc (v : ndarray) : prog loc :=
  λ h, let l := fresh (dom h) in (<[l := v]> h, Ok l).

(** The current contents of the array at [l]. *)
Definition load (l : loc) : prog ndarray :=
  λ h, (h, match h !! l with
           | Some v => Ok v
           | None => Raise SystemError
           end).

(** [A[rs, cs]] read through the view. *)
Definition load_slice (l : loc) (rs cs : slice) : prog ndarray :=
  (A ← load l; unit_ (getitem A rs cs))%P.

(** The rows of [V] repeated to the shape [(r, c)], when [V] broadcasts to
    that shape. *)
Definition broadcast_to (r c : nat) (V : ndarray)
  : result (list (list complex)) :=
  if decide ((nrows V = r ∨ nrows V = 1) ∧ (ncols V = c ∨ ncols V = 1))
  then Ok (broadcast_rows r c V)
  else Raise ValueError.

(** The array [A] after [A[rs, cs] = V]. *)
Definition setitem (A : ndarray) (rs cs : slice) (V : ndarray)
  : result ndarray :=
  (let r0 := slice_start rs (nrows A) in
   let rl := slice_len rs (nrows A) in
   let c0 := slice_start cs (ncols A) in
   let cl := slice_len cs (ncols A) in
   vrows ← broadcast_to rl cl V;
   Ok (NDArray (nrows A) (ncols A)
         (take r0 (rows A) ++
          zip_with (λ row vrow, take c0 row ++ vrow ++ drop (c0 + cl) row)
                   (take rl (drop r0 (rows A))) vrows ++
          drop (r0 + rl) (rows A))))%R.

(** [l[rs, cs] = V]: the array at [l] is updated in place. *)
Definition store_slice (l : loc) (rs cs : slice) (V : ndarray) : prog unit :=
  λ h, match h !! l with
       | Some A =>
           match setitem A rs cs V with
           | Ok A' => (<[l := A']> h, Ok ())
           | Raise e => (h, Raise e)
           end
       | None => (h, Raise SystemError)
       end.

(** The module-level names: [s0 .. s3] are array objects; [s0T .. s3T]
    are transposed views of them and [pauli_dict] maps the indices to the
    same four objects. *)
Record globals := Globals {
  g_s0 : loc; g_s1 : loc; g_s2 : loc; g_s3 : loc
}.

Definition pauli_dict (g : globals) : gmap Z loc :=
  {[ 0%Z := g_s0 g; 1%Z := g_s1 g; 2%Z := g_s2 g; 3%Z := g_s3 g ]}.

(** [X.T] read through the view. *)
Definition load_T (l : loc) : prog ndarray :=
  (A ← load l; unit_ (transpose A))%P.

(** Importing the module. *)
Definition import : prog globals :=
  (l0 ← alloc s0;
   l1 ← alloc s1;
   l2 ← alloc s2;
   l3 ← alloc s3;
   unit_ (Globals l0 l1 l2 l3))%P.

Section functions.
Context (g : globals).
(** [np.linalg.norm] of a list of scalars: a square root, which the
    rational scalars cannot express, so it is left open. *)
Context (linalg_norm : list complex → complex).

Definition pauli_mat (nbasis i : Z) : prog loc :=
  (let N := (nbasis `div` 2)%Z in
   _ ← lift (py_assert (bool_decide (N * 2 = nbasis)%Z));
   ones ← lift (np_ones N N);
   M ← alloc ones;
   spm ← lift (dict_get (pauli_dict g) i);
   S ← load spm;
   c00 ← lift (item S 0 0);
   c01 ← lift (item S 0 1);
   c10 ← lift (item S 1 0);
   c11 ← lift (item S 1 1);
   Mv ← load M;
   B ← lift (np_block (np_scale Mv c00) (np_scale Mv c01)
                      (np_scale Mv c10) (np_scale Mv c11));
   alloc B)%P.

Definition pauli_decomp (M : loc)
  : prog (complex * complex * complex * complex) :=
  (Mv ← load M;
   S0 ← load (g_s0 g); p0 ← lift (np_dot S0 Mv);
   S1 ← load (g_s1 g); p1 ← lift (np_dot S1 Mv);
   S2 ← load (g_s2 g); p2 ← lift (np_dot S2 Mv);
   S3 ← load (g_s3 g); p3 ← lift (np_dot S3 Mv);
   unit_ (half (np_trace p0), half (np_trace p1),
          half (np_trace p2), half (np_trace p3)))%P.

Definition pauli_decomp2 (M : loc)
  : prog (complex * complex * complex * complex) :=
  (Mv ← load M;
   S0T ← load_T (g_s0 g); p0 ← lift (np_mul Mv S0T);
   S1T ← load_T (g_s1 g); p1 ← lift (np_mul Mv S1T);
   S2T ← load_T (g_s2 g); p2 ← lift (np_mul Mv S2T);
   S3T ← load_T (g_s3 g); p3 ← lift (np_mul Mv S3T);
   unit_ (half (np_sum p0), half (np_sum p1),
          half (np_sum p2), half (np_sum p3)))%P.

Definition pauli_sigma_norm (M : loc) : prog complex :=
  ('(MI, Mx, My, Mz) ← pauli_decomp2 M;
   unit_ (linalg_norm [Mx; My; Mz]))%P.

Definition pauli_block_I (M : loc) (norb : Z) : prog loc :=
  (Mv ← load M;
   ret ← alloc (zeros_like Mv);
   a ← load_slice M (upto norb) (upto norb);
   d ← load_slice M (from norb) (from norb);
   t ← lift (np_add a d);
   tmp ← alloc (np_divr t 2);
   T ← load tmp;
   _ ← store_slice ret (upto norb) (upto norb) T;
   _ ← store_slice ret (from norb) (from norb) T;
   unit_ ret)%P.

Definition pauli_block_x (M : loc) (norb : Z) : prog loc :=
  (Mv ← load M;
   ret ← alloc (zeros_like Mv);
   b ← load_slice M (upto norb) (from norb);
   c ← load_slice M (from norb) (upto norb);
   t ← lift (np_add b c);
   tmp ← alloc (np_divr t 2);
   T ← load tmp;
   _ ← store_slice ret (upto norb) (from norb) T;
   _ ← store_slice ret (from norb) (upto norb) T;
   unit_ ret)%P.

Definition pauli_block_y (M : loc) (norb : Z) : prog (loc * loc) :=
  (Mv ← load M;
   ret ← alloc (zeros_like Mv);
   b ← load_slice M (upto norb) (from norb);
   c ← load_slice M (from norb) (upto norb);
   t ← lift (np_add (np_scale b Ci) (np_scale c (Copp Ci)));
   tmp ← alloc (np_divr t 2);
   T ← load tmp;
   _ ← store_slice ret (upto norb) (from norb) (np_scale T (Copp Ci));
   T' ← load tmp;
   _ ← store_slice ret (from norb) (upto norb) (np_scale T' Ci);
   unit_ (tmp, ret))%P.

Definition pauli_block_z (M : loc) (norb : Z) : prog (loc * loc) :=
  (Mv ← load M;
   ret ← alloc (zeros_like Mv);
   a ← load_slice M (upto norb) (upto norb);
   d ← load_slice M (from norb) (from norb);
   t ← lift (np_sub a d);
   tmp ← alloc (np_divr t 2);
   T ← load tmp;
   _ ← store_slice ret (upto norb) (upto norb) T;
   T' ← load tmp;
   _ ← store_slice ret (from norb) (from norb) (np_map Copp T');
   unit_ (tmp, ret))%P.

Definition pauli_block (M : loc) (idim : Z) : prog loc :=
  (Mv ← load M;
   half_shape ← lift (py_floordiv (shape Mv) 2);
   '(norb1, norb2) ← lift (unpack2 half_shape);
   if decide (idim = 0)%Z then
     a ← load_slice M (upto norb1) (upto norb2);
     d ← load_slice M (from norb1) (from norb2);
     t ← lift (np_add a d);
     alloc (np_divr t 2)
   else if decide (idim = 1)%Z then
     b ← load_slice M (upto norb1) (from norb2);
     c ← load_slice M (from norb1) (upto norb2);
     t ← lift (np_add b c);
     alloc (np_divr t 2)
   else if decide (idim = 2)%Z then
     b ← load_slice M (upto norb1) (from norb2);
     c ← load_slice M (from norb1) (upto norb2);
     t ← lift (np_add (np_scale b Ci) (np_scale c (Copp Ci)));
     alloc (np_divr t 2)
   else if decide (idim = 3)%Z then
     a ← load_slice M (upto norb1) (upto norb2);
     d ← load_slice M (from norb1) (from norb2);
     t ← lift (np_sub a d);
     alloc (np_divr t 2)
   else lift (Raise NotImplementedError))%P.

Definition pauli_block_all (M : loc) : prog (loc * loc * loc * loc) :=
  (Mv ← load M;
   half_shape ← lift (py_floordiv (np_array_of (shape Mv)) 2);
   '(norb1, norb2) ← lift (unpack2 half_shape);
   a ← load_slice M (upto norb1) (upto norb2);
   d ← load_slice M (from norb1) (from norb2);
   tI ← lift (np_add a d);
   MI ← alloc (np_divr tI 2);
   b ← load_slice M (upto norb1) (from norb2);
   c ← load_slice M (from norb1) (upto norb2);
   tx ← lift (np_add b c);
   Mx ← alloc (np_divr tx 2);
   b' ← load_slice M (upto norb1) (from norb2);
   c' ← load_slice M (from norb1) (upto norb2);
   ty ← lift (np_add (np_scale b' Ci) (np_scale c' (Copp Ci)));
   My ← alloc (np_divr ty 2);
   a' ← load_slice M (upto norb1) (upto norb2);
   d' ← load_slice M (from norb1) (from norb2);
   tz ← lift (np_sub a' d');
   Mz ← alloc (np_divr tz 2);
   unit_ (MI, Mx, My, Mz))%P.

Definition pauli_block_sigma_norm (M : loc) : prog loc :=
  ('(MI, Mx, My, Mz) ← pauli_block_all M;
   Mzv ← load Mz;
   alloc (np_scale Mzv (np_sign (np_trace Mzv))))%P.
End functions.

(** *** What a call may do to the store *)

(** Every array of [h] is in [h'] with the same contents. *)
Definition unchanged (h h' : heap) : Prop :=
  ∀ l v, h !! l = Some v → h' !! l = Some v.

(** A call is pure when it leaves every array of the store it starts from as
    it was, and the arrays it returns are allocated by the call. *)
Definition pure_call {A} (m : prog A) (results : A → list loc) : Prop :=
  ∀ h, unchanged h ((m h).1) ∧
       ∀ a, (m h).2 = Ok a →
            ∀ l, l ∈ results a → (l ∉ dom h) ∧ (l ∈ dom ((m h).1)).

(** The invariant of a call started in [h0]: the store extends [h0], and the
    locations in [own] are allocated and were not in [h0]. *)
Definition inv (h0 : heap) (own : gset loc) (h : heap) : Prop :=
  h0 ⊆ h ∧ own ⊆ dom h ∧ own ## dom h0.

(** [m] keeps the invariant, may only add to [own], and establishes [Q] when
    it returns. *)
Definition safe {A} (h0 : heap) (own : gset loc) (m : prog A)
    (Q : A → gset loc → Prop) : Prop :=
  ∀ h, inv h0 own h →
       ∃ own', own ⊆ own' ∧ inv h0 own' ((m h).1) ∧
               ∀ a, (m h).2 = Ok a → Q a own'.

End Store.

(** ** The arithmetic in binary64

    The entries above are exact.  The arrays the source computes with hold
    binary64 numbers, and a [complex128] entry is a pair of them.  The
    element-wise operations are those of the numeric library's
    [complex128] loops: addition and subtraction by components, the
    four-product multiplication, and the scaled division.  Sums of several
    terms are taken in index order, starting from the first term. *)

Module Binary64.
Import PrimFloat.

Record c128 := C128 { fre : float; fim : float }.

(** A real number as a [complex128] value. *)
Definition of_real (x : float) : c128 := C128 x 0.

Definition zero : c128 := of_real 0.
Definition one : c128 := of_real 1.
(** The literal [1j]. *)
Definition imag : c128 := C128 0 1.

Definition cadd (a b : c128) : c128 :=
  C128 (fre a + fre b) (fim a + fim b).
Definition csub (a b : c128) : c128 :=
  C128 (fre a - fre b) (fim a - fim b).
Definition copp (a : c128) : c128 :=
  C128 (- fre a) (- fim a).
Definition cmul (a b : c128) : c128 :=
  C128 (fre a * fre b - fim a * fim b) (fre a * fim b + fim a * fre b).

(** Division, by the ratio of the smaller to the larger component of the
    divisor. *)
Definition cdiv (a b : c128) : c128 :=
  let br := abs (fre b) in
  let bi := abs (fim b) in
  if leb bi br then
    if (eqb br 0 && eqb bi 0)%bool then C128 (fre a / br) (fim a / br)
    else
      let rat := (fim b / fre b)%float in
      let scl := (1 / (fre b + fim b * rat))%float in
      C128 ((fre a + fim a * rat) * scl) ((fim a - fre a * rat) * scl)
  else
    let rat := (fre b / fim b)%float in
    let scl := (1 / (fim b + fre b * rat))%float in
    C128 ((fre a * rat + fim a) * scl) ((fim a * rat - fre a) * scl).

(** The integer [2] as the divisor of a [complex128] array. *)
Definition two : c128 := of_real 2.

Record ndarray := NDArray {
  nrows : nat;
  ncols : nat;
  rows : list (list c128)
}.

Definition np_array (l : list (list c128)) : ndarray :=
  NDArray (length l) (length (default [] (head l))) l.

Definition np_map (f : c128 → c128) (A : ndarray) : ndarray :=
  NDArray (nrows A) (ncols A) (fmap (M:=list) f <$> rows A).

(** [A * c], [c * A] and [A / c] for a scalar [c]. *)
Definition np_scale (A : ndarray) (c : c128) : ndarray :=
  np_map (λ x, cmul x c) A.
Definition np_scale_l (c : c128) (A : ndarray) : ndarray :=
  np_map (cmul c) A.
Definition np_div (A : ndarray) (c : c128) : ndarray :=
  np_map (λ x, cdiv x c) A.

Definition shape (A : ndarray) : pyobj :=
  PyTuple [Z.of_nat (nrows A); Z.of_nat (ncols A)].

Definition getitem (A : ndarray) (rs cs : slice) : ndarray :=
  NDArray (slice_len rs (nrows A)) (slice_len cs (ncols A))
          (py_slice cs (ncols A) <$> py_slice rs (nrows A) (rows A)).

Definition broadcast_rows (r c : nat) (A : ndarray) : list (list c128) :=
  stretch r (stretch c <$> rows A).

Definition np_binop (f : c128 → c128 → c128) (A B : ndarray)
  : result ndarray :=
  match bdim (nrows A) (nrows B), bdim (ncols A) (ncols B) with
  | Some r, Some c =>
      Ok (NDArray r c (zip_with (zip_with f) (broadcast_rows r c A)
                                             (broadcast_rows r c B)))
  | _, _ => Raise ValueError
  end.

Definition np_add := np_binop cadd.
Definition np_sub := np_binop csub.

(** The sum of a list, from its first entry on. *)
Definition csum (l : list c128) : c128 :=
  match l with
  | [] => zero
  | x :: l' => foldl cadd x l'
  end.

Fixpoint diagonal (i : nat) (rs : list (list c128)) : list c128 :=
  match rs with
  | [] => []
  | r :: rs' =>
      match r !! i with
      | Some x => x :: diagonal (S i) rs'
      | None => []
      end
  end.

Definition np_trace (A : ndarray) : c128 := csum (diagonal 0 (rows A)).

(** Entry [j] of a row of a matrix product. *)
Definition dot_entry (a : list c128) (B : list (list c128)) (j : nat)
  : c128 :=
  csum (zip_with (λ x r, cmul x (default zero (r !! j))) a B).

(** [A.dot(B)] *)
Definition np_dot (A B : ndarray) : result ndarray :=
  if decide (ncols A = nrows B) then
    Ok (NDArray (nrows A) (ncols B)
          ((λ a, dot_entry a (rows B) <$> seq 0 (ncols B)) <$> rows A))
  else Raise ValueError.

Definition hstack (A B : ndarray) : result ndarray :=
  if decide (nrows A = nrows B) then
    Ok (NDArray (nrows A) (ncols A + ncols B)
                (zip_with app (rows A) (rows B)))
  else Raise ValueError.

Definition vstack (A B : ndarray) : result ndarray :=
  if decide (ncols A = ncols B) then
    Ok (NDArray (nrows A + nrows B) (ncols A) (rows A ++ rows B))
  else Raise ValueError.

Definition np_block (A B C D : ndarray) : result ndarray :=
  (top ← hstack A B;
   bot ← hstack C D;
   vstack top bot)%R.

(** The Pauli matrices, as they enter a product with a [complex128]
    operand. *)
Definition s0 : ndarray := np_array [[one; zero]; [zero; one]].
Definition s1 : ndarray := np_array [[zero; one]; [one; zero]].
Definition s2 : ndarray := np_array [[zero; copp imag]; [imag; zero]].
Definition s3 : ndarray := np_array [[one; zero]; [zero; copp one]].

Definition pauli_decomp (M : ndarray) : result (c128 * c128 * c128 * c128) :=
  (p0 ← np_dot s0 M;
   p1 ← np_dot s1 M;
   p2 ← np_dot s2 M;
   p3 ← np_dot s3 M;
   Ok (cdiv (np_trace p0) two, cdiv (np_trace p1) two,
       cdiv (np_trace p2) two, cdiv (np_trace p3) two))%R.

Definition pauli_block_all (M : ndarray)
  : result (ndarray * ndarray * ndarray * ndarray) :=
  (half_shape ← py_floordiv (np_array_of (shape M)) 2;
   '(norb1, norb2) ← unpack2 half_shape;
   tI ← np_add (getitem M (upto norb1) (upto norb2))
               (getitem M (from norb1) (from norb2));
   let MI := np_div tI two in
   tx ← np_add (getitem M (upto norb1) (from norb2))
               (getitem M (from norb1) (upto norb2));
   let Mx := np_div tx two in
   ty ← np_add (np_scale (getitem M (upto norb1) (from norb2)) imag)
               (np_scale (getitem M (from norb1) (upto norb2)) (copp imag));
   let My := np_div ty two in
   tz ← np_sub (getitem M (upto norb1) (upto norb2))
               (getitem M (from norb1) (from norb2));
   let Mz := np_div tz two in
   Ok (MI, Mx, My, Mz))%R.

(** The inverse block formulas and the recomposition, as in the exact
    model. *)
Definition pauli_reassemble (MI Mx My Mz : ndarray) : result ndarray :=
  (uu ← np_add MI Mz;
   ud ← np_sub Mx (np_scale_l imag My);
   du ← np_add Mx (np_scale_l imag My);
   dd ← np_sub MI Mz;
   np_block uu ud du dd)%R.

Definition pauli_recompose (I x y z : c128) : result ndarray :=
  (t1 ← np_add (np_scale_l I s0) (np_scale_l x s1);
   t2 ← np_add t1 (np_scale_l y s2);
   np_add t2 (np_scale_l z s3))%R.

(** [np.array_equal]: the same shape and equal entries. *)
Definition c128_eqb (a b : c128) : bool :=
  eqb (fre a) (fre b) && eqb (fim a) (fim b).

Definition list_all2 {A} (p : A → A → bool) (l k : list A) : bool :=
  bool_decide (length l = length k) && forallb id (zip_with p l k).

Definition array_equal (A B : ndarray) : bool :=
  bool_decide (nrows A = nrows B) && bool_decide (ncols A = ncols B)
  && list_all2 (list_all2 c128_eqb) (rows A) (rows B).

(** Entries within [tol] of each other, in the real and in the imaginary
    part. *)
Definition c128_close (tol : float) (a b : c128) : bool :=
  leb (abs (fre a - fre b)) tol && leb (abs (fim a - fim b)) tol.

Definition allclose (tol : float) (A B : ndarray) : bool :=
  bool_decide (nrows A = nrows B) && bool_decide (ncols A = ncols B)
  && list_all2 (list_all2 (c128_close tol)) (rows A) (rows B).

(** The input [[0.1, 0], [0, 0.2]] as a [complex128] array. *)
Definition example_tenths : ndarray :=
  np_array [[of_real 0.1; zero]; [zero; of_real 0.2]].

(** The input [[1e16, 0], [0, 1]] as a [complex128] array. *)
Definition example_large : ndarray :=
  np_array [[of_real 1e16; zero]; [zero; one]].

End Binary64.

(** ** Vocabulary of the statements *)

(** Two row lists have the same shape when they have as many rows and
    corresponding rows have equal lengths. *)
Definition same_shape (X Y : list (list complex)) : Prop :=
  Forall2 (λ r1 r2, length r1 = length r2) X Y.

(** [M] has shape [(2*norb1, 2*norb2)]. *)
Definition spin_doubled (norb1 norb2 : nat) (M : ndarray) : Prop :=
  wf M ∧ nrows M = 2 * norb1 ∧ ncols M = 2 * norb2.

(** The blocks [[upup, updn], [dnup, dndn]] of the docstring of
    [pauli_block]. *)
Definition upup (norb1 norb2 : nat) (M : ndarray) : ndarray :=
  NDArray norb1 norb2 (take norb2 <$> take norb1 (rows M)).
Definition updn (norb1 norb2 : nat) (M : ndarray) : ndarray :=
  NDArray norb1 norb2 (drop norb2 <$> take norb1 (rows M)).
Definition dnup (norb1 norb2 : nat) (M : ndarray) : ndarray :=
  NDArray norb1 norb2 (take norb2 <$> drop norb1 (rows M)).
Definition dndn (norb1 norb2 : nat) (M : ndarray) : ndarray :=
  NDArray norb1 norb2 (drop norb2 <$> drop norb1 (rows M)).

(** The components returned by [pauli_block_all], entry by entry. *)
Definition block_I (norb1 norb2 : nat) (M : ndarray) : ndarray :=
  NDArray norb1 norb2
    (zip_with (zip_with (λ a d, half (Cadd a d)))
              (rows (upup norb1 norb2 M)) (rows (dndn norb1 norb2 M))).
Definition block_x (norb1 norb2 : nat) (M : ndarray) : ndarray :=
  NDArray norb1 norb2
    (zip_with (zip_with (λ b c, half (Cadd b c)))
              (rows (updn norb1 norb2 M)) (rows (dnup norb1 norb2 M))).
Definition block_y (norb1 norb2 : nat) (M : ndarray) : ndarray :=
  NDArray norb1 norb2
    (zip_with (zip_with (λ b c, half (Cadd (Cmul b Ci) (Cmul c (Copp Ci)))))
              (rows (updn norb1 norb2 M)) (rows (dnup norb1 norb2 M))).
Definition block_z (norb1 norb2 : nat) (M : ndarray) : ndarray :=
  NDArray norb1 norb2
    (zip_with (zip_with (λ a d, half (Csub a d)))
              (rows (upup norb1 norb2 M)) (rows (dndn norb1 norb2 M))).

(** The inverse block formulas, [upup = MI + Mz], [updn = Mx - i*My],
    [dnup = Mx + i*My] and [dndn = MI - Mz], stacked in the 2x2-block
    layout. *)
Definition pauli_reassemble (MI Mx My Mz : ndarray) : result ndarray :=
  (uu ← np_add MI Mz;
   ud ← np_sub Mx (np_scale My Ci);
   du ← np_add Mx (np_scale My Ci);
   dd ← np_sub MI Mz;
   np_block uu ud du dd)%R.

Definition example_4x2 : ndarray :=
  np_array [[Cint 1 2; Cint 3 0];
            [Cint 0 1; Cint 5 (-1)];
            [Cint 2 2; Cint 0 0];
            [Cint (-4) 0; Cint 7 3]].

(** The matrix with four constant [N x N] blocks. *)
Definition const_blocks (N : nat) (a b c d : complex) : ndarray :=
  NDArray (N + N) (N + N)
    (replicate N (replicate N a ++ replicate N b) ++
     replicate N (replicate N c ++ replicate N d)).

(** The component a basis matrix is expected to have at position [k]. *)
Definition basis_component (N : nat) (i k : Z) : ndarray :=
  if decide (i = k) then np_full N N Cone else np_zeros N N.

Definition example_traceless : ndarray :=
  np_array [[Cint 1 0; Cint 0 0; Cint 0 0; Cint 0 0];
            [Cint 0 0; Cint (-1) 0; Cint 0 0; Cint 0 0];
            [Cint 0 0; Cint 0 0; Cint 0 0; Cint 0 0];
            [Cint 0 0; Cint 0 0; Cint 0 0; Cint 0 0]].

(** [c * A] for a scalar on the left. *)
Definition np_scale_l (c : complex) (A : ndarray) : ndarray :=
  np_map (Cmul c) A.

(** [I*s0 + x*s1 + y*s2 + z*s3] *)
Definition pauli_recompose (I x y z : complex) : result ndarray :=
  (t1 ← np_add (np_scale_l I s0) (np_scale_l x s1);
   t2 ← np_add t1 (np_scale_l y s2);
   np_add t2 (np_scale_l z s3))%R.

(** ** Arrays with their element type

    The single-axis helpers write into [zeros_like(M)], an array of the
    element type of [M], and a slice assignment converts what it stores to
    the element type of its target.  An array is paired here with its
    element type, one of the three the module's own constants and the
    floating-point literals give rise to.  The entries of an [int64] array
    are integers and wrap around; those of a [float64] array are real;
    arithmetic on [float64] and [complex128] entries is exact. *)

Module Typed.

Inductive dtype := int64 | float64 | complex128.

#[global] Instance dtype_eq_dec : EqDecision dtype.
Proof. solve_decision. Defined.

Record tarray := TArray { dtype_of : dtype; data : ndarray }.

#[global] Instance tarray_eq_dec : EqDecision tarray.
Proof. solve_decision. Defined.

(** Rounding toward zero, as a floating-point number is converted to an
    integer. *)
Definition Qc_trunc (q : Qc) : Z := (Qnum q ÷ Z.pos (Qden q))%Z.

(** Two's complement wrap-around of a 64-bit integer result. *)
Definition wrap64 (z : Z) : Z := ((z + 2 ^ 63) mod 2 ^ 64 - 2 ^ 63)%Z.

(** What an arithmetic result of element type [dt] holds: integer
    arithmetic wraps around. *)
Definition overflow (dt : dtype) (x : complex) : complex :=
  match dt with
  | int64 => Cint (wrap64 (Qc_trunc (re x))) 0
  | float64 | complex128 => x
  end.

(** The conversion of a scalar stored into an array of element type [dt]:
    a complex value loses its imaginary part (with a [ComplexWarning]), and
    a real one is rounded toward zero to become an integer. *)
Definition cast (dt : dtype) (x : complex) : complex :=
  match dt with
  | complex128 => x
  | float64 => Cplx (re x) 0
  | int64 => Cint (Qc_trunc (re x)) 0
  end.

(** The element type of the result of an operation on two operands. *)
Definition promote (a b : dtype) : dtype :=
  match a, b with
  | complex128, _ | _, complex128 => complex128
  | float64, _ | _, float64 => float64
  | int64, int64 => int64
  end.

(** The scalars an array of element type [dt] holds. *)
Definition holds (dt : dtype) (x : complex) : Prop :=
  match dt with
  | complex128 => True
  | float64 => im x = 0%Qc
  | int64 => ∃ z : Z, x = Cint z 0 ∧ (- 2 ^ 63 ≤ z < 2 ^ 63)%Z
  end.

Definition valid (A : tarray) : Prop :=
  wf (data A) ∧ Forall (Forall (holds (dtype_of A))) (rows (data A)).

(** [A.astype(dt)] *)
Definition astype (dt : dtype) (A : tarray) : tarray :=
  TArray dt (np_map (cast dt) (data A)).

Definition zeros_like (A : tarray) : tarray :=
  TArray (dtype_of A) (zeros_like (data A)).

Definition getitem (A : tarray) (rs cs : slice) : tarray :=
  TArray (dtype_of A) (getitem (data A) rs cs).

Definition np_binop (f : complex → complex → complex) (A B : tarray)
  : result tarray :=
  (let dt := promote (dtype_of A) (dtype_of B) in
   R ← np_binop f (data A) (data B);
   Ok (TArray dt (np_map (overflow dt) R)))%R.

Definition np_add := np_binop Cadd.
Definition np_sub := np_binop Csub.

(** [A * c] for a complex literal [c]: the result is [complex128]. *)
Definition np_scale (A : tarray) (c : complex) : tarray :=
  TArray complex128 (np_scale (data A) c).

(** [A / q], true division: the result is floating-point. *)
Definition np_divr (A : tarray) (q : Qc) : tarray :=
  TArray (promote (dtype_of A) float64) (np_divr (data A) q).

(** [-A] *)
Definition np_neg (A : tarray) : tarray :=
  TArray (dtype_of A)
         (np_map (λ x, overflow (dtype_of A) (Copp x)) (data A)).

(** The array [A] after [A[rs, cs] = V]: the values are converted to the
    element type of [A]. *)
Definition setitem (A : tarray) (rs cs : slice) (V : tarray)
  : result tarray :=
  (A' ← Store.setitem (data A) rs cs (data (astype (dtype_of A) V));
   Ok (TArray (dtype_of A) A'))%R.

(** *** The single-axis helpers

    The local array [ret] is threaded through its two slice assignments;
    in a chained assignment the targets are assigned from left to right. *)

Definition pauli_block_I (M : tarray) (norb : Z) : result tarray :=
  (let ret := zeros_like M in
   t ← np_add (getitem M (upto norb) (upto norb))
              (getitem M (from norb) (from norb));
   let tmp := np_divr t 2 in
   ret ← setitem ret (upto norb) (upto norb) tmp;
   ret ← setitem ret (from norb) (from norb) tmp;
   Ok ret)%R.

Definition pauli_block_x (M : tarray) (norb : Z) : result tarray :=
  (let ret := zeros_like M in
   t ← np_add (getitem M (upto norb) (from norb))
              (getitem M (from norb) (upto norb));
   let tmp := np_divr t 2 in
   ret ← setitem ret (upto norb) (from norb) tmp;
   ret ← setitem ret (from norb) (upto norb) tmp;
   Ok ret)%R.

Definition pauli_block_y (M : tarray) (norb : Z)
  : result (tarray * tarray) :=
  (let ret := zeros_like M in
   t ← np_add (np_scale (getitem M (upto norb) (from norb)) Ci)
              (np_scale (getitem M (from norb) (upto norb)) (Copp Ci));
   let tmp := np_divr t 2 in
   ret ← setitem ret (upto norb) (from norb) (np_scale tmp (Copp Ci));
   ret ← setitem ret (from norb) (upto norb) (np_scale tmp Ci);
   Ok (tmp, ret))%R.

Definition pauli_block_z (M : tarray) (norb : Z)
  : result (tarray * tarray) :=
  (let ret := zeros_like M in
   t ← np_sub (getitem M (upto norb) (upto norb))
              (getitem M (from norb) (from norb));
   let tmp := np_divr t 2 in
   ret ← setitem ret (upto norb) (upto norb) tmp;
   ret ← setitem ret (from norb) (from norb) (np_neg tmp);
   Ok (tmp, ret))%R.

(** [pauli_block_all] with the element types of its four results. *)
Definition pauli_block_all (M : tarray)
  : result (tarray * tarray * tarray * tarray) :=
  (half_shape ← py_floordiv (np_array_of (shape (data M))) 2;
   '(norb1, norb2) ← unpack2 half_shape;
   tI ← np_add (getitem M (upto norb1) (upto norb2))
               (getitem M (from norb1) (from norb2));
   let MI := np_divr tI 2 in
   tx ← np_add (getitem M (upto norb1) (from norb2))
               (getitem M (from norb1) (upto norb2));
   let Mx := np_divr tx 2 in
   ty ← np_add (np_scale (getitem M (upto norb1) (from norb2)) Ci)
               (np_scale (getitem M (from norb1) (upto norb2)) (Copp Ci));
   let My := np_divr ty 2 in
   tz ← np_sub (getitem M (upto norb1) (upto norb2))
               (getitem M (from norb1) (from norb2));
   let Mz := np_divr tz 2 in
   Ok (MI, Mx, My, Mz))%R.

End Typed.

(** ** The norm of the vector part *)

Section sigma_norm.
(** [np.linalg.norm] of a list of scalars, left open as in [Store]. *)
Context (linalg_norm : list complex → complex).

Definition pauli_sigma_norm (M : ndarray) : result complex :=
  ('(MI, Mx, My, Mz) ← pauli_decomp2 M;
   Ok (linalg_norm [Mx; My; Mz]))%R.
End sigma_norm.

(** The matrix with the blocks [[A, B], [C, D]], each of shape
    [(norb1, norb2)]. *)
Definition block_layout (norb1 norb2 : nat) (A B C D : ndarray) : ndarray :=
  NDArray (norb1 + norb1) (norb2 + norb2)
    (zip_with app (rows A) (rows B) ++ zip_with app (rows C) (rows D)).

(** [A] is well formed of shape [(r, c)]. *)
Definition has_shape (r c : nat) (A : ndarray) : Prop :=
  wf A ∧ nrows A = r ∧ ncols A = c.

(** The element-wise combination of two blocks as an array of element
    type [dt]. *)
Definition typed_zip (dt : Typed.dtype) (f : complex → complex → complex)
    (A B : ndarray) : Typed.tarray :=
  Typed.TArray dt
    (np_map (Typed.overflow dt)
       (NDArray (nrows A) (ncols A)
                (zip_with (zip_with f) (rows A) (rows B)))).

(** The components returned by [Typed.pauli_block_all] on a matrix of
    element type [dt] with blocks of shape [(norb1, norb2)]. *)
Definition typed_I (dt : Typed.dtype) (norb1 norb2 : nat) (M : ndarray)
  : Typed.tarray :=
  Typed.np_divr
    (typed_zip (Typed.promote dt dt) Cadd
       (upup norb1 norb2 M) (dndn norb1 norb2 M)) 2.
Definition typed_x (dt : Typed.dtype) (norb1 norb2 : nat) (M : ndarray)
  : Typed.tarray :=
  Typed.np_divr
    (typed_zip (Typed.promote dt dt) Cadd
       (updn norb1 norb2 M) (dnup norb1 norb2 M)) 2.
Definition typed_y (norb1 norb2 : nat) (M : ndarray) : Typed.tarray :=
  Typed.np_divr
    (typed_zip Typed.complex128 Cadd
       (np_scale (updn norb1 norb2 M) Ci)
       (np_scale (dnup norb1 norb2 M) (Copp Ci))) 2.
Definition typed_z (dt : Typed.dtype) (norb1 norb2 : nat) (M : ndarray)
  : Typed.tarray :=
  Typed.np_divr
    (typed_zip (Typed.promote dt dt) Csub
       (upup norb1 norb2 M) (dndn norb1 norb2 M)) 2.

(** The sum [rI + rx + ry + rz] of four arrays. *)
Definition typed_sum4 (rI rx ry rz : Typed.tarray) : result Typed.tarray :=
  (t1 ← Typed.np_add rI rx;
   t2 ← Typed.np_add t1 ry;
   Typed.np_add t2 rz)%R.

(** What the store-level [pauli_block_all] does, against the value [r] the
    value-level function gives on the contents of [M]: the arrays of the
    initial store keep their contents, and the four results are distinct
    new arrays holding the four components. *)
Definition refines4 (h : Store.heap)
    (run : Store.heap * result (Store.loc * Store.loc * Store.loc * Store.loc))
    (r : result (ndarray * ndarray * ndarray * ndarray)) : Prop :=
  Store.unchanged h run.1 ∧
  match r with
  | Ok (MI, Mx, My, Mz) =>
      ∃ lI lx ly lz,
        run.2 = Ok (lI, lx, ly, lz) ∧ NoDup [lI; lx; ly; lz] ∧
        Forall (λ l, h !! l = None) [lI; lx; ly; lz] ∧
        run.1 !! lI = Some MI ∧ run.1 !! lx = Some Mx ∧
        run.1 !! ly = Some My ∧ run.1 !! lz = Some Mz
  | Raise e => run.2 = Raise e
  end.

Definition example_positive : ndarray :=
  np_array [[Cint 4 0; Cint 0 0; Cint 0 0; Cint 0 0];
            [Cint 0 0; Cint (-2) 0; Cint 0 0; Cint 0 0];
            [Cint 0 0; Cint 0 0; Cint 0 0; Cint 0 0];
            [Cint 0 0; Cint 0 0; Cint 0 0; Cint 0 0]].

Definition example_negative : ndarray :=
  np_array [[Cint 0 0; Cint 0 0; Cint 0 0; Cint 0 0];
            [Cint 0 0; Cint 0 0; Cint 0 0; Cint 0 0];
            [Cint 0 0; Cint 0 0; Cint 4 0; Cint 0 0];
            [Cint 0 0; Cint 0 0; Cint 0 0; Cint (-2) 0]].

Definition example_2x2 : ndarray :=
  np_array [[Cint 1 2; Cint 3 0]; [Cint 0 1; Cint 5 (-1)]].

(** The integer matrix [[1, 2], [3, 4]], and the same entries as
    floating-point numbers. *)
Definition example_int64 : Typed.tarray :=
  Typed.TArray Typed.int64
    (np_array [[Cint 1 0; Cint 2 0]; [Cint 3 0; Cint 4 0]]).
Definition example_float64 : Typed.tarray :=
  Typed.TArray Typed.float64
    (np_array [[Cint 1 0; Cint 2 0]; [Cint 3 0; Cint 4 0]]).

(** The integer matrix [[2**62, 0], [0, 2**62]]. *)
Definition example_int64_large : Typed.tarray :=
  Typed.TArray Typed.int64
    (np_array [[Cint (2 ^ 62) 0; Cint 0 0]; [Cint 0 0; Cint (2 ^ 62) 0]]).

Definition example_store : gmap positive ndarray :=
  {[ 1%positive := example_2x2 ]}.

(** * Properties *)

Example pauli_mat_4_2 :
  pauli_mat 4 2 = Ok (np_array [[Czero; Czero; Copp Ci; Copp Ci];
                                [Czero; Czero; Copp Ci; Copp Ci];
                                [Ci; Ci; Czero; Czero];
                                [Ci; Ci; Czero; Czero]]).
Proof. compute_done. Qed.

(** The concrete cases listed with the testable properties. *)
Example pauli_decomp_identity :
  pauli_decomp (np_array [[Cone; Czero]; [Czero; Cone]])
  = Ok (Cone, Czero, Czero, Czero).
Proof. compute_done. Qed.

Example pauli_decomp_sigma_x :
  pauli_decomp (np_array [[Czero; Cone]; [Cone; Czero]])
  = Ok (Czero, Cone, Czero, Czero).
Proof. compute_done. Qed.

(** ** Scalar algebra *)

Ltac cx_unfold :=
  unfold half, Cdivr, Cadd, Csub, Cmul, Copp, Ci, Cone, Czero in *; simpl in *.

(** Closes an equation between complex expressions built from the field
    operations. *)
Ltac cx :=
  intros;
  repeat match goal with z : complex |- _ => destruct z end;
  cx_unfold; f_equal; field; discriminate.

Lemma half_sum_diff_l a d : Cadd (half (Cadd a d)) (half (Csub a d)) = a.
Proof. cx. Qed.

Lemma half_sum_diff_r a d : Csub (half (Cadd a d)) (half (Csub a d)) = d.
Proof. cx. Qed.

Lemma half_xy_l b c :
  Csub (half (Cadd b c))
       (Cmul (half (Cadd (Cmul b Ci) (Cmul c (Copp Ci)))) Ci) = b.
Proof. cx. Qed.

Lemma half_xy_r b c :
  Cadd (half (Cadd b c))
       (Cmul (half (Cadd (Cmul b Ci) (Cmul c (Copp Ci)))) Ci) = c.
Proof. cx. Qed.

Lemma Cmul_zero_r a : Cmul a Czero = Czero.
Proof. destruct a; cx_unfold; f_equal; ring. Qed.

Lemma np_sign_zero : np_sign Czero = Czero.
Proof. reflexivity. Qed.

(** ** Lists of rows *)

Section zip.
Context {A B C : Type}.
Implicit Types (l : list A) (k : list B).

Lemma fmap_zip_with' {D} (g : C → D) (f : A → B → C) l k :
  g <$> zip_with f l k = zip_with (λ a b, g (f a b)) l k.
Proof. revert k; induction l; intros [|??]; simpl; f_equal; auto. Qed.

Lemma zip_with_zip_with {D E} (h : C → D → E) (f : A → B → C)
    (g : A → B → D) l k :
  zip_with h (zip_with f l k) (zip_with g l k)
  = zip_with (λ a b, h (f a b) (g a b)) l k.
Proof. revert k; induction l; intros [|??]; simpl; f_equal; auto. Qed.

Lemma zip_with_fst l k :
  length l = length k → zip_with (λ a _, a) l k = l.
Proof.
  revert k; induction l; intros [|??]; simpl; intros; f_equal;
    try discriminate; auto.
Qed.

Lemma zip_with_snd l k :
  length l = length k → zip_with (λ _ b, b) l k = k.
Proof.
  revert k; induction l; intros [|??]; simpl; intros; f_equal;
    try discriminate; auto.
Qed.
End zip.

Lemma zip2_fst X Y :
  same_shape X Y → zip_with (zip_with (λ a _ : complex, a)) X Y = X.
Proof.
  induction 1; simpl; f_equal; auto using @zip_with_fst.
Qed.

Lemma zip2_snd X Y :
  same_shape X Y → zip_with (zip_with (λ _ b : complex, b)) X Y = Y.
Proof.
  induction 1; simpl; f_equal; auto using @zip_with_snd.
Qed.

Lemma zip2_ext (f g : complex → complex → complex) X Y :
  (∀ a b, f a b = g a b) →
  zip_with (zip_with f) X Y = zip_with (zip_with g) X Y.
Proof.
  intros Hfg. apply zip_with_ext; [|done..].
  intros r1 r2. by apply zip_with_ext.
Qed.

Lemma zip2_fmap_out (g : complex → complex) (f : complex → complex → complex)
    X Y :
  fmap (M:=list) g <$> zip_with (zip_with f) X Y
  = zip_with (zip_with (λ a b, g (f a b))) X Y.
Proof.
  rewrite fmap_zip_with'. apply zip_with_ext; [|done..].
  intros r1 r2. apply fmap_zip_with'.
Qed.

Lemma zip2_fmap_l (g : complex → complex) (f : complex → complex → complex)
    X Y :
  zip_with (zip_with f) (fmap (M:=list) g <$> X) Y
  = zip_with (zip_with (λ a b, f (g a) b)) X Y.
Proof.
  rewrite zip_with_fmap_l. apply zip_with_ext; [|done..].
  intros r1 r2. apply zip_with_fmap_l.
Qed.

Lemma zip2_fmap_r (g : complex → complex) (f : complex → complex → complex)
    X Y :
  zip_with (zip_with f) X (fmap (M:=list) g <$> Y)
  = zip_with (zip_with (λ a b, f a (g b))) X Y.
Proof.
  rewrite zip_with_fmap_r. apply zip_with_ext; [|done..].
  intros r1 r2. apply zip_with_fmap_r.
Qed.

Lemma zip2_zip2 (h f g : complex → complex → complex) X Y :
  zip_with (zip_with h) (zip_with (zip_with f) X Y)
                        (zip_with (zip_with g) X Y)
  = zip_with (zip_with (λ a b, h (f a b) (g a b))) X Y.
Proof.
  rewrite zip_with_zip_with. apply zip_with_ext; [|done..].
  intros r1 r2. apply zip_with_zip_with.
Qed.

(** Splitting every row at a column and gluing the halves back. *)
Lemma zip_app_take_drop (n : nat) (X : list (list complex)) :
  zip_with app (take n <$> X) (drop n <$> X) = X.
Proof.
  induction X as [|r X IH]; csimpl; [done|].
  by rewrite take_drop, IH.
Qed.

(** ** Slices at a non-negative bound *)

Lemma slice_index_nat (n len : nat) :
  slice_index (Z.of_nat n) len = n `min` len.
Proof. unfold slice_index. case_decide; lia. Qed.

Lemma slice_start_upto n len : slice_start (upto n) len = 0.
Proof. reflexivity. Qed.

Lemma slice_len_upto (n len : nat) :
  slice_len (upto (Z.of_nat n)) len = n `min` len.
Proof.
  unfold slice_len, slice_stop, slice_start; simpl.
  rewrite slice_index_nat. lia.
Qed.

Lemma slice_start_from (n len : nat) :
  slice_start (from (Z.of_nat n)) len = n `min` len.
Proof. unfold slice_start; simpl. apply slice_index_nat. Qed.

Lemma slice_len_from (n len : nat) :
  slice_len (from (Z.of_nat n)) len = len - n.
Proof.
  unfold slice_len, slice_stop, slice_start; simpl.
  rewrite slice_index_nat. lia.
Qed.

Lemma py_slice_upto {A} (n len : nat) (l : list A) :
  n ≤ len → py_slice (upto (Z.of_nat n)) len l = take n l.
Proof.
  intros. unfold py_slice. rewrite slice_len_upto, slice_start_upto.
  simpl. f_equal. lia.
Qed.

Lemma py_slice_from {A} (n len : nat) (l : list A) :
  length l = len → n ≤ len → py_slice (from (Z.of_nat n)) len l = drop n l.
Proof.
  intros. unfold py_slice. rewrite slice_len_from, slice_start_from.
  replace (n `min` len) with n by lia.
  apply take_ge. rewrite length_drop. lia.
Qed.

(** ** Well-formed arrays *)

Lemma wf_np_map f A : wf A → wf (np_map f A).
Proof.
  intros [Hr Hc]. split; simpl.
  - by rewrite length_fmap.
  - apply Forall_fmap. eapply Forall_impl; [exact Hc|].
    intros r Hlen. simpl. by rewrite length_fmap.
Qed.

Lemma wf_np_full r c x : wf (np_full r c x).
Proof.
  split; simpl.
  - apply length_replicate.
  - apply Forall_replicate, length_replicate.
Qed.

Lemma stretch_id {A} (n : nat) (l : list A) : length l = n → stretch n l = l.
Proof. destruct l as [|x [|y l]]; simpl; intros; subst; done. Qed.

Lemma broadcast_rows_id A : wf A → broadcast_rows (nrows A) (ncols A) A = rows A.
Proof.
  intros [Hr Hc]. unfold broadcast_rows.
  rewrite stretch_id; [|by rewrite length_fmap].
  rewrite <-(list_fmap_id (rows A)) at 2.
  apply Forall_fmap_ext_1. eapply Forall_impl; [exact Hc|].
  intros r Hlen. by apply stretch_id.
Qed.

Lemma bdim_same n : bdim n n = Some n.
Proof. unfold bdim. by rewrite decide_True. Qed.

(** On operands of one shape an element-wise operation pairs the entries. *)
Lemma np_binop_same f A B :
  wf A → wf B → nrows A = nrows B → ncols A = ncols B →
  np_binop f A B
  = Ok (NDArray (nrows A) (ncols A)
                (zip_with (zip_with f) (rows A) (rows B))).
Proof.
  intros HA HB Hr Hc. unfold np_binop.
  rewrite <-Hr, <-Hc, !bdim_same.
  rewrite broadcast_rows_id by done.
  rewrite Hr, Hc, broadcast_rows_id by done.
  by rewrite <-Hr, <-Hc.
Qed.

Lemma wf_same_shape A B :
  wf A → wf B → nrows A = nrows B → ncols A = ncols B →
  same_shape (rows A) (rows B).
Proof.
  intros [HrA HcA] [HrB HcB] Hr Hc. unfold same_shape.
  apply Forall2_same_length_lookup_2; [congruence|].
  intros i r1 r2 H1 H2.
  rewrite (Forall_lookup_1 _ _ _ _ HcA H1), (Forall_lookup_1 _ _ _ _ HcB H2).
  done.
Qed.

(** ** The four blocks of a spin-doubled matrix *)

Section blocks.
Context (norb1 norb2 : nat) (M : ndarray).
Hypothesis HM : spin_doubled norb1 norb2 M.

Local Abbreviation n1 := (Z.of_nat norb1).
Local Abbreviation n2 := (Z.of_nat norb2).

Lemma half_shape_spin_doubled :
  py_floordiv (np_array_of (shape M)) 2 = Ok (PyIntArray [n1; n2]).
Proof.
  destruct HM as (_ & Hr & Hc). unfold shape; simpl.
  rewrite Hr, Hc. do 3 f_equal; [|f_equal]; 
    rewrite Nat2Z.inj_mul, Z.mul_comm; by apply Z.div_mul.
Qed.

Lemma rows_length_cols r : r ∈ rows M → length r = 2 * norb2.
Proof.
  destruct HM as ([_ Hc] & _ & Hc'). rewrite <-Hc'.
  intros Hin. rewrite Forall_forall in Hc. by apply Hc.
Qed.

Lemma slice_cols_upto (X : list (list complex)) :
  X ⊆ rows M →
  py_slice (upto n2) (ncols M) <$> X = take norb2 <$> X.
Proof.
  intros HX. destruct HM as (_ & _ & Hc).
  apply Forall_fmap_ext_1, Forall_forall. intros r Hr.
  apply py_slice_upto. lia.
Qed.

Lemma slice_cols_from (X : list (list complex)) :
  X ⊆ rows M →
  py_slice (from n2) (ncols M) <$> X = drop norb2 <$> X.
Proof.
  intros HX. destruct HM as (_ & _ & Hc).
  apply Forall_fmap_ext_1, Forall_forall. intros r Hr.
  apply py_slice_from; [|lia].
  rewrite Hc. apply rows_length_cols. by apply HX.
Qed.

Lemma getitem_upup : getitem M (upto n1) (upto n2) = upup norb1 norb2 M.
Proof.
  destruct HM as ([Hlen _] & Hr & Hc). unfold getitem, upup.
  rewrite !slice_len_upto, py_slice_upto by lia.
  rewrite slice_cols_upto by apply subseteq_take.
  f_equal; lia.
Qed.

Lemma getitem_updn : getitem M (upto n1) (from n2) = updn norb1 norb2 M.
Proof.
  destruct HM as ([Hlen _] & Hr & Hc). unfold getitem, updn.
  rewrite slice_len_upto, slice_len_from, py_slice_upto by lia.
  rewrite slice_cols_from by apply subseteq_take.
  f_equal; lia.
Qed.

Lemma getitem_dnup : getitem M (from n1) (upto n2) = dnup norb1 norb2 M.
Proof.
  destruct HM as ([Hlen _] & Hr & Hc). unfold getitem, dnup.
  rewrite slice_len_upto, slice_len_from, py_slice_from by lia.
  rewrite slice_cols_upto by apply subseteq_drop.
  f_equal; lia.
Qed.

Lemma getitem_dndn : getitem M (from n1) (from n2) = dndn norb1 norb2 M.
Proof.
  destruct HM as ([Hlen _] & Hr & Hc). unfold getitem, dndn.
  rewrite !slice_len_from, py_slice_from by lia.
  rewrite slice_cols_from by apply subseteq_drop.
  f_equal; lia.
Qed.

Lemma wf_upup : wf (upup norb1 norb2 M).
Proof.
  destruct HM as ([Hlen Hrows] & Hr & Hc). split; simpl.
  - rewrite length_fmap, length_take. lia.
  - apply Forall_fmap, Forall_take. eapply Forall_impl; [exact Hrows|].
    intros r Hl; simpl in *. rewrite length_take. lia.
Qed.

Lemma wf_updn : wf (updn norb1 norb2 M).
Proof.
  destruct HM as ([Hlen Hrows] & Hr & Hc). split; simpl.
  - rewrite length_fmap, length_take. lia.
  - apply Forall_fmap, Forall_take. eapply Forall_impl; [exact Hrows|].
    intros r Hl; simpl in *. rewrite length_drop. lia.
Qed.

Lemma wf_dnup : wf (dnup norb1 norb2 M).
Proof.
  destruct HM as ([Hlen Hrows] & Hr & Hc). split; simpl.
  - rewrite length_fmap, length_drop. lia.
  - apply Forall_fmap, Forall_drop. eapply Forall_impl; [exact Hrows|].
    intros r Hl; simpl in *. rewrite length_take. lia.
Qed.

Lemma wf_dndn : wf (dndn norb1 norb2 M).
Proof.
  destruct HM as ([Hlen Hrows] & Hr & Hc). split; simpl.
  - rewrite length_fmap, length_drop. lia.
  - apply Forall_fmap, Forall_drop. eapply Forall_impl; [exact Hrows|].
    intros r Hl; simpl in *. rewrite length_drop. lia.
Qed.

(** Gluing the four blocks back gives the matrix. *)
Lemma np_block_blocks :
  np_block (upup norb1 norb2 M) (updn norb1 norb2 M)
           (dnup norb1 norb2 M) (dndn norb1 norb2 M) = Ok M.
Proof.
  destruct HM as ([Hlen Hrows] & Hr & Hc).
  unfold np_block, hstack; simpl.
  rewrite !decide_True by done; simpl.
  unfold vstack; simpl. rewrite decide_True by done.
  rewrite !zip_app_take_drop, take_drop.
  destruct M as [r c R]; simpl in *. f_equal. f_equal; lia.
Qed.
End blocks.

Create HintDb wf.
#[local] Hint Resolve wf_upup wf_updn wf_dnup wf_dndn wf_np_map : wf.

Lemma pauli_block_all_blocks norb1 norb2 M :
  spin_doubled norb1 norb2 M →
  pauli_block_all M
  = Ok (block_I norb1 norb2 M, block_x norb1 norb2 M,
        block_y norb1 norb2 M, block_z norb1 norb2 M).
Proof.
  intros HM. unfold pauli_block_all.
  rewrite (half_shape_spin_doubled _ _ _ HM); simpl.
  rewrite (getitem_upup _ _ _ HM), (getitem_updn _ _ _ HM),
    (getitem_dnup _ _ _ HM), (getitem_dndn _ _ _ HM).
  unfold np_add, np_sub.
  rewrite !np_binop_same by eauto with wf; simpl.
  unfold np_divr, np_map; simpl.
  rewrite !zip2_fmap_out.
  rewrite (zip2_fmap_l (λ x, Cmul x Ci)), (zip2_fmap_r (λ x, Cmul x (Copp Ci))).
  reflexivity.
Qed.

Lemma wf_zip2 f A B r c :
  wf A → wf B → nrows A = r → nrows B = r → ncols A = c → ncols B = c →
  wf (NDArray r c (zip_with (zip_with f) (rows A) (rows B))).
Proof.
  intros [HrA HcA] [HrB HcB] <- Hr <- Hc. split; simpl.
  - rewrite length_zip_with. lia.
  - apply Forall_lookup. intros i row Hi.
    apply lookup_zip_with_Some in Hi as (r1 & r2 & -> & H1 & H2).
    rewrite length_zip_with.
    rewrite (Forall_lookup_1 _ _ _ _ HcA H1), (Forall_lookup_1 _ _ _ _ HcB H2).
    lia.
Qed.

Section components.
Context (norb1 norb2 : nat) (M : ndarray).
Hypothesis HM : spin_doubled norb1 norb2 M.

Lemma wf_block_I : wf (block_I norb1 norb2 M).
Proof. apply wf_zip2; eauto with wf. Qed.
Lemma wf_block_x : wf (block_x norb1 norb2 M).
Proof. apply wf_zip2; eauto with wf. Qed.
Lemma wf_block_y : wf (block_y norb1 norb2 M).
Proof. apply wf_zip2; eauto with wf. Qed.
Lemma wf_block_z : wf (block_z norb1 norb2 M).
Proof. apply wf_zip2; eauto with wf. Qed.

Lemma same_shape_diag :
  same_shape (rows (upup norb1 norb2 M)) (rows (dndn norb1 norb2 M)).
Proof. apply wf_same_shape; eauto with wf. Qed.

Lemma same_shape_offdiag :
  same_shape (rows (updn norb1 norb2 M)) (rows (dnup norb1 norb2 M)).
Proof. apply wf_same_shape; eauto with wf. Qed.
End components.

#[local] Hint Resolve wf_block_I wf_block_x wf_block_y wf_block_z : wf.

(** ** Block round trip *)

(** C1: for every matrix [M] of shape [(2*norb1, 2*norb2)],
    [pauli_block_all M] returns four blocks, and reassembling them by the
    inverse formulas into the 2x2-block layout gives back [M]. *)
Theorem pauli_block_all_roundtrip (norb1 norb2 : nat) (M : ndarray) :
  spin_doubled norb1 norb2 M →
  ∃ MI Mx My Mz,
    pauli_block_all M = Ok (MI, Mx, My, Mz) ∧
    pauli_reassemble MI Mx My Mz = Ok M.
Proof.
  intros HM. do 4 eexists. split; [by apply pauli_block_all_blocks|].
  unfold pauli_reassemble, np_add, np_sub.
  rewrite !np_binop_same by eauto with wf; simpl.
  rewrite !zip2_fmap_out, !zip2_zip2.
  pose proof (same_shape_diag _ _ _ HM) as Hd.
  pose proof (same_shape_offdiag _ _ _ HM) as Ho.
  rewrite (zip2_ext _ (λ a _, a)), zip2_fst by auto using half_sum_diff_l.
  rewrite (zip2_ext _ (λ b _, b)), zip2_fst by auto using half_xy_l.
  rewrite (zip2_ext _ (λ _ c, c)), zip2_snd by auto using half_xy_r.
  rewrite (zip2_ext _ (λ _ d, d)), zip2_snd by auto using half_sum_diff_r.
  by apply np_block_blocks.
Qed.

Lemma pauli_block_all_roundtrip_witness :
  spin_doubled 2 1 example_4x2 ∧
  ∃ MI Mx My Mz,
    pauli_block_all example_4x2 = Ok (MI, Mx, My, Mz) ∧
    pauli_reassemble MI Mx My Mz = Ok example_4x2.
Proof.
  assert (spin_doubled 2 1 example_4x2) as H.
  { split; [split|]; simpl; [done|repeat constructor|done]. }
  split; [exact H|]. exact (pauli_block_all_roundtrip 2 1 example_4x2 H).
Defined.

(** ** [pauli_block]: the shape is divided as a tuple *)

(** [M.shape // 2] is evaluated before [idim] is looked at, and floor
    division is not defined on the tuple [M.shape]. *)
Lemma pauli_block_TypeError M idim : pauli_block M idim = Raise TypeError.
Proof. reflexivity. Qed.

(** C2: on a matrix of shape [(2*norb1, 2*norb2)] and an index [idim] in
    [0..3], [pauli_block] does not return the component block: the call
    raises [TypeError] at [M.shape // 2], although [pauli_block_all]
    computes that very block from the same matrix. *)
Theorem pauli_block_component_raises (norb1 norb2 : nat) (M : ndarray)
    (idim : Z) :
  spin_doubled norb1 norb2 M → (0 ≤ idim ≤ 3)%Z →
  pauli_block M idim = Raise TypeError ∧
  pauli_block_all M
  = Ok (block_I norb1 norb2 M, block_x norb1 norb2 M,
        block_y norb1 norb2 M, block_z norb1 norb2 M).
Proof.
  intros HM _. split; [apply pauli_block_TypeError|].
  by apply pauli_block_all_blocks.
Qed.

Lemma spin_doubled_s0 : spin_doubled 1 1 s0.
Proof. split; [split|]; simpl; [done|repeat constructor|done]. Qed.

Lemma pauli_block_component_raises_witness :
  pauli_block s0 0 = Raise TypeError ∧
  pauli_block_all s0
  = Ok (block_I 1 1 s0, block_x 1 1 s0, block_y 1 1 s0, block_z 1 1 s0).
Proof.
  apply (pauli_block_component_raises 1 1 s0 0 spin_doubled_s0). lia.
Defined.

(** C3: for an index outside [0..3] the call does not reach
    [raise NotImplementedError()]: it raises [TypeError] like every other
    call. *)
Theorem pauli_block_bad_index_raises (M : ndarray) (idim : Z) :
  ¬ (0 ≤ idim ≤ 3)%Z →
  pauli_block M idim = Raise TypeError ∧
  pauli_block M idim ≠ Raise NotImplementedError.
Proof. intros _. by rewrite pauli_block_TypeError. Qed.

Lemma pauli_block_bad_index_raises_witness :
  pauli_block s0 4 = Raise TypeError ∧
  pauli_block s0 4 ≠ Raise NotImplementedError.
Proof. apply (pauli_block_bad_index_raises s0 4). lia. Defined.

(** ** [pauli_mat] *)

(** C6: for every odd [nbasis] and every index [i], [pauli_mat nbasis i]
    fails at the assertion on the dimension; hence it returns a matrix only
    when [nbasis] is even. *)
Theorem pauli_mat_odd_nbasis (nbasis i : Z) :
  Z.odd nbasis = true →
  pauli_mat nbasis i = Raise AssertionError ∧
  ∀ B, pauli_mat nbasis i ≠ Ok B.
Proof.
  intros Hodd. apply Z.odd_spec in Hodd as [m ->].
  assert (pauli_mat (2 * m + 1) i = Raise AssertionError) as ->; [|done].
  unfold pauli_mat. rewrite bool_decide_false by lia. done.
Qed.

Lemma pauli_mat_odd_nbasis_witness :
  pauli_mat 3 0 = Raise AssertionError ∧ ∀ B, pauli_mat 3 0 ≠ Ok B.
Proof. apply (pauli_mat_odd_nbasis 3 0). reflexivity. Defined.

(** The other ways [pauli_mat] fails: an index that is not a key of
    [pauli_dict], and a negative even size. *)
Example pauli_mat_bad_index : pauli_mat 4 7 = Raise KeyError.
Proof. compute_done. Qed.

Example pauli_mat_negative : pauli_mat (-2) 0 = Raise ValueError.
Proof. compute_done. Qed.

Lemma zip_with_app_replicate (N : nat) (a b : complex) :
  zip_with app (replicate N (replicate N a)) (replicate N (replicate N b))
  = replicate N (replicate N a ++ replicate N b).
Proof. apply zip_with_replicate. Qed.

(** [pauli_mat (2N) i] is the block expansion of the Pauli matrix with
    entries [c00, c01, c10, c11]. *)
Lemma pauli_mat_even (N : nat) (i : Z) spm c00 c01 c10 c11 :
  pauli_dict !! i = Some spm →
  item spm 0 0 = Ok c00 → item spm 0 1 = Ok c01 →
  item spm 1 0 = Ok c10 → item spm 1 1 = Ok c11 →
  pauli_mat (2 * Z.of_nat N) i
  = Ok (const_blocks N (Cmul Cone c00) (Cmul Cone c01)
                       (Cmul Cone c10) (Cmul Cone c11)).
Proof.
  intros Hspm H00 H01 H10 H11. unfold pauli_mat.
  replace ((2 * Z.of_nat N) `div` 2)%Z with (Z.of_nat N)
    by (symmetry; rewrite Z.mul_comm; apply Z.div_mul; lia).
  rewrite bool_decide_true by lia; simpl.
  unfold np_ones. rewrite decide_False by lia; simpl.
  unfold dict_get. rewrite Hspm; simpl.
  rewrite H00, H01, H10, H11; simpl.
  rewrite Nat2Z.id.
  unfold np_block, hstack; simpl. rewrite !decide_True by done; simpl.
  unfold vstack; simpl. rewrite decide_True by done.
  rewrite !fmap_replicate, !zip_with_app_replicate. done.
Qed.

Lemma spin_doubled_const_blocks N a b c d :
  spin_doubled N N (const_blocks N a b c d).
Proof.
  split; [split|]; simpl; [| |lia].
  - rewrite length_app, !length_replicate. done.
  - apply Forall_app; split; apply Forall_replicate;
      rewrite length_app, !length_replicate; done.
Qed.

Lemma pauli_block_all_const_blocks N a b c d :
  pauli_block_all (const_blocks N a b c d)
  = Ok (np_full N N (half (Cadd a d)),
        np_full N N (half (Cadd b c)),
        np_full N N (half (Cadd (Cmul b Ci) (Cmul c (Copp Ci)))),
        np_full N N (half (Csub a d))).
Proof.
  rewrite (pauli_block_all_blocks N N) by apply spin_doubled_const_blocks.
  unfold block_I, block_x, block_y, block_z, np_full; simpl.
  rewrite take_app_length', drop_app_length' by by rewrite length_replicate.
  rewrite !fmap_replicate.
  rewrite !take_app_length', !drop_app_length' by by rewrite length_replicate.
  rewrite !zip_with_replicate. done.
Qed.

(** C7: for every [N >= 1] and every index [i] in [0..3], decomposing the
    basis matrix [pauli_mat (2N) i] with [pauli_block_all] gives the
    all-ones [N x N] matrix at component [i] and the zero [N x N] matrix at
    the other three components. *)
Theorem pauli_block_all_pauli_mat (N : nat) (i : Z) :
  1 ≤ N → (0 ≤ i ≤ 3)%Z →
  ∃ B, pauli_mat (2 * Z.of_nat N) i = Ok B ∧
       pauli_block_all B
       = Ok (basis_component N i 0, basis_component N i 1,
             basis_component N i 2, basis_component N i 3).
Proof.
  intros _ Hi.
  assert (i = 0 ∨ i = 1 ∨ i = 2 ∨ i = 3)%Z as [->|[->|[->| ->]]] by lia;
    eexists; (split; [by eapply pauli_mat_even|]);
    rewrite pauli_block_all_const_blocks;
    unfold basis_component, np_zeros; simpl;
    repeat f_equal; compute_done.
Qed.

Lemma pauli_block_all_pauli_mat_witness :
  ∃ B, pauli_mat (2 * Z.of_nat 2) 2 = Ok B ∧
       pauli_block_all B
       = Ok (basis_component 2 2 0, basis_component 2 2 1,
             basis_component 2 2 2, basis_component 2 2 3).
Proof. apply (pauli_block_all_pauli_mat 2 2); lia. Defined.

(** ** [pauli_block_sigma_norm] *)

(** C8: for every matrix [M] of shape [(2*norb1, 2*norb2)],
    [pauli_block_sigma_norm M] is [Mz * sign(trace(Mz))], where
    [Mz = (upup - dndn) / 2] is the z component of [M]: the z block with its
    sign adjusted, and no norm of the vector part. *)
Theorem pauli_block_sigma_norm_sign_z (norb1 norb2 : nat) (M : ndarray) :
  spin_doubled norb1 norb2 M →
  ∃ Mz,
    (t ← np_sub (upup norb1 norb2 M) (dndn norb1 norb2 M);
     Ok (np_divr t 2))%R = Ok Mz ∧
    (∃ MI Mx My, pauli_block_all M = Ok (MI, Mx, My, Mz)) ∧
    pauli_block_sigma_norm M = Ok (np_scale Mz (np_sign (np_trace Mz))).
Proof.
  intros HM. exists (block_z norb1 norb2 M).
  pose proof (pauli_block_all_blocks _ _ _ HM) as Hall. split; [|split].
  - unfold np_sub. rewrite np_binop_same by eauto with wf; simpl.
    unfold np_divr, np_map; simpl. by rewrite zip2_fmap_out.
  - eauto.
  - unfold pauli_block_sigma_norm. by rewrite Hall.
Qed.

Lemma pauli_block_sigma_norm_sign_z_witness :
  ∃ Mz,
    (t ← np_sub (upup 2 1 example_4x2) (dndn 2 1 example_4x2);
     Ok (np_divr t 2))%R = Ok Mz ∧
    (∃ MI Mx My, pauli_block_all example_4x2 = Ok (MI, Mx, My, Mz)) ∧
    pauli_block_sigma_norm example_4x2
    = Ok (np_scale Mz (np_sign (np_trace Mz))).
Proof.
  apply (pauli_block_sigma_norm_sign_z 2 1 example_4x2).
  split; [split|]; simpl; [done|repeat constructor|done].
Defined.

(** The vector part of [s1] is [(1, 0, 0)], of norm one, and its z block
    is zero. *)
Example pauli_block_sigma_norm_s1 :
  pauli_block_all s1
  = Ok (np_zeros 1 1, np_full 1 1 Cone, np_zeros 1 1, np_zeros 1 1) ∧
  pauli_block_sigma_norm s1 = Ok (np_zeros 1 1).
Proof. split; compute_done. Qed.

(** A z block with entries of both signs keeps them. *)
Example pauli_block_sigma_norm_mixed :
  pauli_block_sigma_norm
    (np_array [[Cint 4 0; Cint 0 0; Cint 0 0; Cint 0 0];
               [Cint 0 0; Cint (-2) 0; Cint 0 0; Cint 0 0];
               [Cint 0 0; Cint 0 0; Cint 0 0; Cint 0 0];
               [Cint 0 0; Cint 0 0; Cint 0 0; Cint 0 0]])
  = Ok (np_array [[Cint 2 0; Cint 0 0]; [Cint 0 0; Cint (-1) 0]]).
Proof. compute_done. Qed.

Lemma np_scale_zero A :
  wf A → np_scale A Czero = np_zeros (nrows A) (ncols A).
Proof.
  intros [Hr Hc]. unfold np_scale, np_map, np_zeros, np_full. f_equal.
  rewrite <-Hr. clear Hr. induction Hc as [|r R Hlen _ IH]; csimpl; [done|].
  rewrite IH. f_equal. rewrite <-Hlen.
  apply const_fmap. intros. apply Cmul_zero_r.
Qed.

(** Well-formedness is kept by slicing and by broadcasting, whatever the
    shapes are. *)
Lemma slice_index_le n len : slice_index n len ≤ len.
Proof. unfold slice_index. case_decide; lia. Qed.

Lemma length_py_slice {A} (s : slice) (len : nat) (l : list A) :
  length l = len → length (py_slice s len l) = slice_len s len.
Proof.
  intros Hlen. unfold py_slice, slice_len.
  rewrite length_take, length_drop, Hlen.
  assert (slice_stop s len ≤ len); [|lia].
  unfold slice_stop. destruct s as [lo [hi|]]; simpl; [|done].
  apply slice_index_le.
Qed.

Lemma wf_getitem A rs cs : wf A → wf (getitem A rs cs).
Proof.
  intros [Hr Hc]. split; simpl.
  - by rewrite length_fmap, length_py_slice.
  - apply Forall_fmap, Forall_take, Forall_drop.
    eapply Forall_impl; [exact Hc|].
    intros r Hlen; simpl in *. by apply length_py_slice.
Qed.

Lemma bdim_Some a b r :
  bdim a b = Some r → (a = r ∨ a = 1) ∧ (b = r ∨ b = 1).
Proof. unfold bdim. repeat case_decide; naive_solver. Qed.

Lemma length_stretch {A} (n : nat) (l : list A) :
  length l = n ∨ length l = 1 → length (stretch n l) = n.
Proof.
  destruct l as [|x [|y l]]; simpl; intros [?|?]; try done.
  all: by rewrite length_replicate.
Qed.

Lemma Forall_stretch {A} (P : A → Prop) (n : nat) (l : list A) :
  Forall P l → Forall P (stretch n l).
Proof.
  destruct l as [|x [|y l]]; simpl; try done.
  intros Hx. apply Forall_replicate. by apply Forall_inv in Hx.
Qed.

Lemma broadcast_rows_shape r c A :
  wf A → (nrows A = r ∨ nrows A = 1) → (ncols A = c ∨ ncols A = 1) →
  length (broadcast_rows r c A) = r ∧
  Forall (λ row, length row = c) (broadcast_rows r c A).
Proof.
  intros [Hr Hc] Hrows Hcols. unfold broadcast_rows. split.
  - apply length_stretch. rewrite length_fmap. lia.
  - apply Forall_stretch, Forall_fmap.
    eapply Forall_impl; [exact Hc|].
    intros row Hlen; simpl in *. apply length_stretch. lia.
Qed.

Lemma wf_np_binop f A B T :
  wf A → wf B → np_binop f A B = Ok T → wf T.
Proof.
  intros HA HB. unfold np_binop.
  destruct (bdim (nrows A) (nrows B)) as [r|] eqn:Er; [|done].
  destruct (bdim (ncols A) (ncols B)) as [c|] eqn:Ec; [|done].
  intros [= <-].
  apply bdim_Some in Er as [HrA HrB]. apply bdim_Some in Ec as [HcA HcB].
  destruct (broadcast_rows_shape r c A) as [HlA HfA]; [done..|].
  destruct (broadcast_rows_shape r c B) as [HlB HfB]; [done..|].
  split; simpl.
  - rewrite length_zip_with. lia.
  - apply Forall_lookup. intros i row Hi.
    apply lookup_zip_with_Some in Hi as (r1 & r2 & -> & H1 & H2).
    rewrite length_zip_with.
    rewrite (Forall_lookup_1 _ _ _ _ HfA H1), (Forall_lookup_1 _ _ _ _ HfB H2).
    lia.
Qed.

(** The z block returned by [pauli_block_all] is well formed. *)
Lemma wf_pauli_block_all_z M MI Mx My Mz :
  wf M → pauli_block_all M = Ok (MI, Mx, My, Mz) → wf Mz.
Proof.
  intros HM. unfold pauli_block_all.
  destruct (py_floordiv _ _) as [hs|]; simpl; [|done].
  destruct (unpack2 hs) as [[norb1 norb2]|]; simpl; [|done].
  destruct (np_add _ _) as [tI|]; simpl; [|done].
  destruct (np_add _ _) as [tx|]; simpl; [|done].
  destruct (np_add _ _) as [ty|]; simpl; [|done].
  destruct (np_sub _ _) as [tz|] eqn:Ez; simpl; [|done].
  intros [= _ _ _ <-]. apply wf_np_map.
  eapply wf_np_binop; [..|exact Ez]; by apply wf_getitem.
Qed.

(** C9: when the z block [Mz] of [M] has zero trace,
    [pauli_block_sigma_norm M] is the all-zero matrix of the shape of [Mz],
    whatever the entries of [Mz] are. *)
Theorem pauli_block_sigma_norm_zero_trace (M MI Mx My Mz : ndarray) :
  wf M →
  pauli_block_all M = Ok (MI, Mx, My, Mz) →
  np_trace Mz = Czero →
  pauli_block_sigma_norm M = Ok (np_zeros (nrows Mz) (ncols Mz)).
Proof.
  intros HM Hall Htr. unfold pauli_block_sigma_norm. rewrite Hall; simpl.
  rewrite Htr, np_sign_zero.
  rewrite np_scale_zero; [done|]. by eapply wf_pauli_block_all_z.
Qed.

Lemma pauli_block_sigma_norm_zero_trace_witness :
  block_z 2 2 example_traceless ≠ np_zeros 2 2 ∧
  pauli_block_sigma_norm example_traceless = Ok (np_zeros 2 2).
Proof.
  split; [compute_done|].
  apply (pauli_block_sigma_norm_zero_trace example_traceless
           (block_I 2 2 example_traceless) (block_x 2 2 example_traceless)
           (block_y 2 2 example_traceless) (block_z 2 2 example_traceless)).
  - split; simpl; [done|repeat constructor].
  - compute_done.
  - compute_done.
Defined.

(** The same holds on a matrix of odd shape, where the blocks are
    broadcast. *)
Example pauli_block_sigma_norm_odd :
  pauli_block_sigma_norm
    (np_array [[Cint 1 0; Cint 0 0; Cint 0 0];
               [Cint 0 0; Cint 3 0; Cint 0 0];
               [Cint 0 0; Cint 0 0; Cint (-1) 0]])
  = Ok (np_zeros 2 2).
Proof. compute_done. Qed.

(** ** Scalar decomposition of a 2x2 matrix *)

(** The coefficients of the 2x2 matrix [[a, b], [c, d]], in closed form. *)
Lemma pauli_decomp_2x2 (a b c d : complex) :
  pauli_decomp (np_array [[a; b]; [c; d]])
  = Ok (half (Cadd a d), half (Cadd b c),
        half (Cmul Ci (Csub b c)), half (Csub a d)).
Proof.
  unfold pauli_decomp, np_dot, np_trace, Csum, row_times; simpl.
  do 2 f_equal; [do 2 f_equal|]; f_equal; cx.
Qed.

Lemma pauli_decomp2_2x2 (a b c d : complex) :
  pauli_decomp2 (np_array [[a; b]; [c; d]])
  = Ok (half (Cadd a d), half (Cadd b c),
        half (Cmul Ci (Csub b c)), half (Csub a d)).
Proof.
  unfold pauli_decomp2, np_mul, np_binop, np_sum, Csum; simpl.
  do 2 f_equal; [do 2 f_equal|]; f_equal; cx.
Qed.

(** C4: for every 2x2 complex matrix [M], with
    [(I, x, y, z) = pauli_decomp M], the matrix
    [I*s0 + x*s1 + y*s2 + z*s3] is [M]. *)
Theorem pauli_decomp_roundtrip (a b c d : complex) :
  ∃ I x y z,
    pauli_decomp (np_array [[a; b]; [c; d]]) = Ok (I, x, y, z) ∧
    pauli_recompose I x y z = Ok (np_array [[a; b]; [c; d]]).
Proof.
  do 4 eexists. split; [apply pauli_decomp_2x2|].
  unfold pauli_recompose, np_add, np_binop; simpl.
  unfold np_array; simpl. repeat f_equal; cx.
Qed.

(** C5: for every 2x2 complex matrix [M], [pauli_decomp M] (traces of
    matrix products, halved) and [pauli_decomp2 M] (sums of element-wise
    products with the transposed Pauli matrices, halved) return the same
    4-tuple. *)
Theorem pauli_decomp_decomp2 (a b c d : complex) :
  pauli_decomp (np_array [[a; b]; [c; d]])
  = pauli_decomp2 (np_array [[a; b]; [c; d]]).
Proof. by rewrite pauli_decomp_2x2, pauli_decomp2_2x2. Qed.

(** ** Purity of the store-level functions *)

Module StoreFacts.
Abbreviation pauli_block_all_value := pauli_block_all.
Import Store.

Section rules.
Context {A B : Type} (h0 : heap) (own : gset loc).

Lemma safe_unit (a : A) (Q : A → gset loc → Prop) :
  Q a own → safe h0 own (unit_ a) Q.
Proof. intros HQ h Hinv. exists own. simpl. naive_solver. Qed.

Lemma safe_lift (r : result A) (Q : A → gset loc → Prop) :
  (∀ a, r = Ok a → Q a own) → safe h0 own (lift r) Q.
Proof. intros HQ h Hinv. exists own. simpl. naive_solver. Qed.

Lemma safe_bind (m : prog A) (k : A → prog B) (Q : B → gset loc → Prop) :
  safe h0 own m (λ a own', safe h0 own' (k a) Q) →
  safe h0 own (bind m k) Q.
Proof.
  intros Hm h Hinv. destruct (Hm h Hinv) as (own' & Hsub & Hinv' & HQ).
  unfold bind. destruct (m h) as [h' [a|e]]; simpl in *.
  - destruct (HQ a eq_refl h' Hinv') as (own'' & Hsub' & ?).
    exists own''. split; [set_solver|done].
  - exists own'. naive_solver.
Qed.

Lemma safe_load (l : loc) (Q : ndarray → gset loc → Prop) :
  (∀ v, Q v own) → safe h0 own (load l) Q.
Proof. intros HQ h Hinv. exists own. simpl. naive_solver. Qed.
End rules.

Lemma inv_insert h0 own h l v :
  inv h0 own h → l ∉ dom h0 → inv h0 ({[l]} ∪ own) (<[l := v]> h).
Proof.
  intros (Hsub & Hown & Hdisj) Hl. split; [|split].
  - apply insert_subseteq_r; [|done]. by apply not_elem_of_dom.
  - rewrite dom_insert_L. set_solver.
  - set_solver.
Qed.

Lemma safe_alloc h0 own (v : ndarray) (Q : loc → gset loc → Prop) :
  (∀ l, Q l ({[l]} ∪ own)) → safe h0 own (alloc v) Q.
Proof.
  intros HQ h Hinv. exists ({[fresh (dom h)]} ∪ own). simpl.
  split; [set_solver|]. split; [|naive_solver].
  apply inv_insert; [done|].
  destruct Hinv as (Hsub & _ & _). apply subseteq_dom in Hsub.
  pose proof (is_fresh (dom h)). set_solver.
Qed.

Lemma safe_store_slice h0 own l rs cs V (Q : unit → gset loc → Prop) :
  l ∈ own → Q () own → safe h0 own (store_slice l rs cs V) Q.
Proof.
  intros Hl HQ h Hinv. exists own. split; [done|].
  unfold store_slice. destruct (h !! l) as [A|]; simpl; [|naive_solver].
  destruct (setitem A rs cs V) as [A'|e]; simpl; [|naive_solver].
  split; [|by intros []].
  replace own with ({[l]} ∪ own) by set_solver.
  apply inv_insert; [done|]. destruct Hinv as (_ & _ & Hdisj). set_solver.
Qed.

Lemma safe_load_slice h0 own l rs cs (Q : ndarray → gset loc → Prop) :
  (∀ v, Q v own) → safe h0 own (load_slice l rs cs) Q.
Proof.
  intros HQ. apply safe_bind, safe_load. intros v. by apply safe_unit.
Qed.

Lemma safe_load_T h0 own l (Q : ndarray → gset loc → Prop) :
  (∀ v, Q v own) → safe h0 own (load_T l) Q.
Proof.
  intros HQ. apply safe_bind, safe_load. intros v. by apply safe_unit.
Qed.

(** A call that is safe from the empty set of owned locations is pure. *)
Lemma safe_pure_call {A} (m : prog A) (results : A → list loc) :
  (∀ h0, safe h0 ∅ m (λ a own, ∀ l, l ∈ results a → l ∈ own)) →
  pure_call m results.
Proof.
  intros Hsafe h.
  destruct (Hsafe h h) as (own & _ & (Hsub & Hown & Hdisj) & HQ).
  { split; [done|set_solver]. }
  split.
  - intros l v Hl. by eapply lookup_weaken.
  - intros a Ha l Hin. specialize (HQ a Ha l Hin). set_solver.
Qed.

(** One step of a straight-line body. *)
Ltac safe_step :=
  lazymatch goal with
  | |- safe _ _ (bind _ _) _ => apply safe_bind
  | |- safe _ _ (alloc _) _ => apply safe_alloc; intros ?
  | |- safe _ _ (load _) _ => apply safe_load; intros ?
  | |- safe _ _ (load_slice _ _ _) _ => apply safe_load_slice; intros ?
  | |- safe _ _ (load_T _) _ => apply safe_load_T; intros ?
  | |- safe _ _ (lift _) _ => apply safe_lift; intros ? ?
  | |- safe _ _ (store_slice _ _ _ _) _ =>
      apply safe_store_slice; [set_solver|]
  | |- safe _ _ (unit_ _) _ => apply safe_unit
  | |- safe _ _ (let '(_, _) := ?p in _) _ => destruct p
  | |- safe _ _ (if decide _ then _ else _) _ => case_decide
  end.

Ltac safe_run := repeat (safe_step; cbv beta).

Section purity.
Context (g : globals) (linalg_norm : list complex → complex).

Lemma pauli_mat_pure nbasis i :
  pure_call (pauli_mat g nbasis i) (λ B, [B]).
Proof.
  apply safe_pure_call. intros h0. unfold pauli_mat.
  safe_run. set_solver.
Qed.

Lemma pauli_decomp_pure M : pure_call (pauli_decomp g M) (λ _, []).
Proof.
  apply safe_pure_call. intros h0. unfold pauli_decomp.
  safe_run. set_solver.
Qed.

Lemma safe_pauli_decomp2 h0 own M
    (Q : complex * complex * complex * complex → gset loc → Prop) :
  (∀ t, Q t own) → safe h0 own (pauli_decomp2 g M) Q.
Proof. intros HQ. unfold pauli_decomp2. safe_run. apply HQ. Qed.

Lemma pauli_decomp2_pure M : pure_call (pauli_decomp2 g M) (λ _, []).
Proof.
  apply safe_pure_call. intros h0. apply safe_pauli_decomp2. set_solver.
Qed.

Lemma pauli_sigma_norm_pure M :
  pure_call (pauli_sigma_norm g linalg_norm M) (λ _, []).
Proof.
  apply safe_pure_call. intros h0. unfold pauli_sigma_norm.
  apply safe_bind, safe_pauli_decomp2. intros [[[MI Mx] My] Mz].
  apply safe_unit. set_solver.
Qed.

Lemma pauli_block_I_pure M norb :
  pure_call (pauli_block_I M norb) (λ r, [r]).
Proof.
  apply safe_pure_call. intros h0. unfold pauli_block_I.
  safe_run. set_solver.
Qed.

Lemma pauli_block_x_pure M norb :
  pure_call (pauli_block_x M norb) (λ r, [r]).
Proof.
  apply safe_pure_call. intros h0. unfold pauli_block_x.
  safe_run. set_solver.
Qed.

Lemma pauli_block_y_pure M norb :
  pure_call (pauli_block_y M norb) (λ '(tmp, r), [tmp; r]).
Proof.
  apply safe_pure_call. intros h0. unfold pauli_block_y.
  safe_run. set_solver.
Qed.

Lemma pauli_block_z_pure M norb :
  pure_call (pauli_block_z M norb) (λ '(tmp, r), [tmp; r]).
Proof.
  apply safe_pure_call. intros h0. unfold pauli_block_z.
  safe_run. set_solver.
Qed.

Lemma pauli_block_pure M idim :
  pure_call (pauli_block M idim) (λ r, [r]).
Proof.
  apply safe_pure_call. intros h0. unfold pauli_block.
  safe_run; try set_solver; discriminate.
Qed.

Lemma safe_pauli_block_all h0 own M
    (Q : loc * loc * loc * loc → gset loc → Prop) :
  (∀ MI Mx My Mz own',
     {[MI; Mx; My; Mz]} ∪ own ⊆ own' → Q (MI, Mx, My, Mz) own') →
  safe h0 own (pauli_block_all M) Q.
Proof.
  intros HQ. unfold pauli_block_all. safe_run. apply HQ. set_solver.
Qed.

Lemma pauli_block_all_pure M :
  pure_call (pauli_block_all M) (λ '(MI, Mx, My, Mz), [MI; Mx; My; Mz]).
Proof.
  apply safe_pure_call. intros h0. apply safe_pauli_block_all.
  intros MI Mx My Mz own' Hown. set_solver.
Qed.

Lemma pauli_block_sigma_norm_pure M :
  pure_call (pauli_block_sigma_norm M) (λ r, [r]).
Proof.
  apply safe_pure_call. intros h0. unfold pauli_block_sigma_norm.
  apply safe_bind, safe_pauli_block_all. intros MI Mx My Mz own' Hown.
  safe_run. set_solver.
Qed.

(** C10: every function of the module leaves the arrays that exist when it
    is called as they were, the input matrix and the four Pauli constants
    among them, and every array it returns is allocated by the call. *)
Theorem pauli_functions_pure :
  (∀ nbasis i, pure_call (pauli_mat g nbasis i) (λ B, [B])) ∧
  (∀ M, pure_call (pauli_decomp g M) (λ _, [])) ∧
  (∀ M, pure_call (pauli_decomp2 g M) (λ _, [])) ∧
  (∀ M, pure_call (pauli_sigma_norm g linalg_norm M) (λ _, [])) ∧
  (∀ M norb, pure_call (pauli_block_I M norb) (λ r, [r])) ∧
  (∀ M norb, pure_call (pauli_block_x M norb) (λ r, [r])) ∧
  (∀ M norb, pure_call (pauli_block_y M norb) (λ '(tmp, r), [tmp; r])) ∧
  (∀ M norb, pure_call (pauli_block_z M norb) (λ '(tmp, r), [tmp; r])) ∧
  (∀ M idim, pure_call (pauli_block M idim) (λ r, [r])) ∧
  (∀ M, pure_call (pauli_block_all M)
          (λ '(MI, Mx, My, Mz), [MI; Mx; My; Mz])) ∧
  (∀ M, pure_call (pauli_block_sigma_norm M) (λ r, [r])).
Proof.
  repeat apply conj;
    auto using pauli_mat_pure, pauli_decomp_pure, pauli_decomp2_pure,
      pauli_sigma_norm_pure, pauli_block_I_pure, pauli_block_x_pure,
      pauli_block_y_pure, pauli_block_z_pure, pauli_block_pure,
      pauli_block_all_pure, pauli_block_sigma_norm_pure.
Qed.
End purity.


(** *** The store-level functions compute the values of the value-level ones *)

Lemma bind_load {A} l v (k : ndarray → prog A) h :
  h !! l = Some v → bind (load l) k h = k v h.
Proof. intros Hl. unfold bind, load. by rewrite Hl. Qed.

Lemma bind_load_slice {A} l v rs cs (k : ndarray → prog A) h :
  h !! l = Some v → bind (load_slice l rs cs) k h = k (getitem v rs cs) h.
Proof. intros Hl. unfold load_slice, bind, load, unit_. by rewrite Hl. Qed.

Lemma bind_lift {A B} (r : result A) (k : A → prog B) h :
  bind (lift r) k h = match r with Ok a => k a h | Raise e => (h, Raise e) end.
Proof. reflexivity. Qed.

Lemma bind_alloc {A} v (k : loc → prog A) h :
  bind (alloc v) k h = k (fresh (dom h)) (<[fresh (dom h) := v]> h).
Proof. reflexivity. Qed.

Lemma lookup_alloc_ne (h : heap) l v w :
  h !! l = Some v → <[fresh (dom h) := w]> h !! l = Some v.
Proof.
  intros Hl. rewrite lookup_insert_ne; [done|].
  intros <-. apply (is_fresh (dom h)). by apply elem_of_dom.
Qed.

Lemma unchanged_alloc (h0 h : heap) w :
  unchanged h0 h → unchanged h0 (<[fresh (dom h) := w]> h).
Proof. intros Hu l v Hl. by apply lookup_alloc_ne, Hu. Qed.

(** Started on a store that holds [Mv] at [M], the store-level
    [pauli_block_all] raises when the value-level function raises on [Mv],
    and otherwise returns four arrays that hold the four values it returns. *)
Lemma unchanged_refl (h : heap) : unchanged h h.
Proof. by intros l v Hl. Qed.

Ltac raise_case :=
  split; [first [assumption | apply unchanged_refl] | reflexivity].

Lemma pauli_block_all_refines (h : heap) (M : loc) (Mv : ndarray) :
  h !! M = Some Mv →
  ∃ h', (Store.pauli_block_all M h).1 = h' ∧ unchanged h h' ∧
    match pauli_block_all_value Mv with
    | Ok (MI, Mx, My, Mz) =>
        ∃ lI lx ly lz,
          (Store.pauli_block_all M h).2 = Ok (lI, lx, ly, lz) ∧
          h' !! lI = Some MI ∧ h' !! lx = Some Mx ∧
          h' !! ly = Some My ∧ h' !! lz = Some Mz
    | Raise e => (Store.pauli_block_all M h).2 = Raise e
    end.
Proof.
  intros HM. eexists. split; [reflexivity|].
  unfold Store.pauli_block_all, pauli_block_all_value.
  rewrite (bind_load _ _ _ _ HM), bind_lift.
  destruct (py_floordiv _ _) as [hs|e]; cbn [rbind fst snd]; [|raise_case].
  rewrite bind_lift.
  destruct (unpack2 hs) as [[norb1 norb2]|e]; cbn [rbind fst snd]; [|raise_case].
  rewrite !(bind_load_slice _ _ _ _ _ _ HM), bind_lift.
  destruct (np_add _ _) as [tI|e]; cbn [rbind fst snd]; [|raise_case].
  rewrite bind_alloc.
  set (h1 := <[_ := np_divr tI 2]> h).
  assert (unchanged h h1) as Hu1 by (apply unchanged_alloc; first [assumption | apply unchanged_refl]).
  rewrite !(bind_load_slice _ _ _ _ _ _ (Hu1 _ _ HM)), bind_lift.
  destruct (np_add _ _) as [tx|e]; cbn [rbind fst snd]; [|raise_case].
  rewrite bind_alloc.
  set (h2 := <[_ := np_divr tx 2]> h1).
  assert (unchanged h h2) as Hu2 by (apply unchanged_alloc; first [assumption | apply unchanged_refl]).
  rewrite !(bind_load_slice _ _ _ _ _ _ (Hu2 _ _ HM)), bind_lift.
  destruct (np_add _ _) as [ty|e]; cbn [rbind fst snd]; [|raise_case].
  rewrite bind_alloc.
  set (h3 := <[_ := np_divr ty 2]> h2).
  assert (unchanged h h3) as Hu3 by (apply unchanged_alloc; first [assumption | apply unchanged_refl]).
  rewrite !(bind_load_slice _ _ _ _ _ _ (Hu3 _ _ HM)), bind_lift.
  destruct (np_sub _ _) as [tz|e]; cbn [rbind fst snd]; [|raise_case].
  rewrite bind_alloc.
  set (h4 := <[_ := np_divr tz 2]> h3).
  assert (unchanged h h4) as Hu4 by (apply unchanged_alloc; first [assumption | apply unchanged_refl]).
  split; [done|]. simpl. do 4 eexists. split; [reflexivity|].
  assert (h1 !! fresh (dom h) = Some (np_divr tI 2)) as H1
    by apply lookup_insert_eq.
  assert (h2 !! fresh (dom h1) = Some (np_divr tx 2)) as H2
    by apply lookup_insert_eq.
  assert (h3 !! fresh (dom h2) = Some (np_divr ty 2)) as H3
    by apply lookup_insert_eq.
  assert (h4 !! fresh (dom h3) = Some (np_divr tz 2)) as H4
    by apply lookup_insert_eq.
  repeat split; [..|done].
  - by do 3 apply lookup_alloc_ne.
  - by do 2 apply lookup_alloc_ne.
  - by apply lookup_alloc_ne.
Qed.

(** The store-level [pauli_block] raises at the same place as the
    value-level one, and changes nothing. *)
Lemma pauli_block_store_TypeError (h : heap) (M : loc) (Mv : ndarray) idim :
  h !! M = Some Mv → Store.pauli_block M idim h = (h, Raise TypeError).
Proof.
  intros HM. unfold Store.pauli_block. by rewrite (bind_load _ _ _ _ HM).
Qed.

(** A run from the empty store: the module is imported, a matrix of
    complex entries is allocated and handed to [pauli_block_I]; afterwards
    the matrix and [s0] hold what they held, and the result is the embedded
    I block.  (The store holds the arrays of the exact model, which are
    stored into as they are; [Typed] has the conversion to the element type
    of an integer or real matrix.) *)
Example pauli_block_I_run :
  ((g ← import;
    M ← alloc example_traceless;
    r ← pauli_block_I M 2;
    Mv ← load M;
    S0 ← load (g_s0 g);
    R ← load r;
    unit_ (Mv, S0, R))%P ∅).2
  = Ok (example_traceless, s0,
        np_array
          [[half (Cint 1 0); Cint 0 0; Cint 0 0; Cint 0 0];
           [Cint 0 0; half (Cint (-1) 0); Cint 0 0; Cint 0 0];
           [Cint 0 0; Cint 0 0; half (Cint 1 0); Cint 0 0];
           [Cint 0 0; Cint 0 0; Cint 0 0; half (Cint (-1) 0)]]).
Proof. compute_done. Qed.

End StoreFacts.

(** * Further properties *)

(** ** [pauli_mat]: when it returns and what it returns *)

Lemma pauli_dict_lookup_None (i : Z) :
  ¬ (0 ≤ i ≤ 3)%Z → pauli_dict !! i = None.
Proof.
  intros Hi. unfold pauli_dict.
  rewrite !lookup_insert_ne by lia. apply lookup_singleton_ne. lia.
Qed.

Lemma pauli_dict_lookup_Some (i : Z) :
  (0 ≤ i ≤ 3)%Z →
  ∃ spm c00 c01 c10 c11,
    pauli_dict !! i = Some spm ∧
    spm = np_array [[c00; c01]; [c10; c11]].
Proof.
  intros Hi.
  assert (i = 0 ∨ i = 1 ∨ i = 2 ∨ i = 3)%Z as [->|[->|[->| ->]]] by lia;
    by do 5 eexists.
Qed.

(** The outcome of [pauli_mat] on an even size [2 * N]. *)
Lemma pauli_mat_twice (N i : Z) :
  pauli_mat (2 * N) i
  = if decide (N < 0)%Z then Raise ValueError
    else match pauli_dict !! i with
         | None => Raise KeyError
         | Some spm =>
             (c00 ← item spm 0 0; c01 ← item spm 0 1;
              c10 ← item spm 1 0; c11 ← item spm 1 1;
              let J := np_full (Z.to_nat N) (Z.to_nat N) Cone in
              np_block (np_scale J c00) (np_scale J c01)
                       (np_scale J c10) (np_scale J c11))%R
         end.
Proof.
  unfold pauli_mat.
  replace ((2 * N) `div` 2)%Z with N
    by (symmetry; rewrite Z.mul_comm; apply Z.div_mul; lia).
  rewrite bool_decide_true by lia; simpl.
  unfold np_ones. case_decide as HN.
  - rewrite decide_True by lia. done.
  - rewrite decide_False by lia. simpl.
    unfold dict_get. by destruct (pauli_dict !! i).
Qed.

Lemma even_twice (n : Z) : Z.even n = true → ∃ N, n = (2 * N)%Z.
Proof. intros H. by apply Z.even_spec in H. Qed.

Lemma pauli_mat_odd_nbasis_aux (nbasis i : Z) :
  Z.odd nbasis = true → pauli_mat nbasis i = Raise AssertionError.
Proof.
  intros Hodd. apply Z.odd_spec in Hodd as [m ->].
  unfold pauli_mat. by rewrite bool_decide_false by lia.
Qed.

(** X1: [pauli_mat nbasis i] returns a matrix exactly when [nbasis] is
    even and not negative and [i] is one of the four keys of
    [pauli_dict]. *)
Theorem pauli_mat_returns_iff (nbasis i : Z) :
  is_ok (pauli_mat nbasis i) ↔
  Z.even nbasis = true ∧ (0 ≤ nbasis)%Z ∧ (0 ≤ i ≤ 3)%Z.
Proof.
  split.
  - intros [B HB].
    destruct (Z.even nbasis) eqn:Heven.
    + apply even_twice in Heven as [N ->].
      rewrite pauli_mat_twice in HB. case_decide as HN; [done|].
      split; [done|]. split; [lia|].
      destruct (decide (0 ≤ i ≤ 3)%Z) as [|Hi]; [done|].
      by rewrite (pauli_dict_lookup_None _ Hi) in HB.
    + rewrite <-Z.negb_odd in Heven. apply negb_false_iff in Heven.
      by rewrite (pauli_mat_odd_nbasis_aux nbasis i Heven) in HB.
  - intros (Heven & Hpos & Hi).
    apply even_twice in Heven as [N ->].
    destruct (pauli_dict_lookup_Some _ Hi) as (spm & c00 & c01 & c10 & c11 & Hspm & ->).
    rewrite <-(Z2Nat.id N) by lia.
    eexists. by eapply pauli_mat_even.
Qed.

(** X2: on an even negative size [pauli_mat] raises [ValueError], from
    [np.ones], whatever the index is: the index is looked up afterwards. *)
Theorem pauli_mat_negative_size (nbasis i : Z) :
  Z.even nbasis = true → (nbasis < 0)%Z →
  pauli_mat nbasis i = Raise ValueError.
Proof.
  intros Heven Hneg. apply even_twice in Heven as [N ->].
  rewrite pauli_mat_twice. by rewrite decide_True by lia.
Qed.

Lemma pauli_mat_negative_size_witness :
  pauli_mat (-4) 9 = Raise ValueError.
Proof. apply (pauli_mat_negative_size (-4) 9); [reflexivity|lia]. Defined.

(** X3: on an even size that is not negative, an index that is not a key
    of [pauli_dict] raises [KeyError]. *)
Theorem pauli_mat_unknown_index (nbasis i : Z) :
  Z.even nbasis = true → (0 ≤ nbasis)%Z → ¬ (0 ≤ i ≤ 3)%Z →
  pauli_mat nbasis i = Raise KeyError.
Proof.
  intros Heven Hpos Hi. apply even_twice in Heven as [N ->].
  rewrite pauli_mat_twice, decide_False by lia.
  by rewrite (pauli_dict_lookup_None _ Hi).
Qed.

Lemma pauli_mat_unknown_index_witness :
  pauli_mat 6 (-1) = Raise KeyError.
Proof. apply (pauli_mat_unknown_index 6 (-1)); [reflexivity|lia..]. Defined.

Lemma Cmul_one_l (x : complex) : Cmul Cone x = x.
Proof. destruct x; cx_unfold; f_equal; ring. Qed.

Lemma Cmul_one_r (x : complex) : Cmul x Cone = x.
Proof. destruct x; cx_unfold; f_equal; ring. Qed.

(** Whenever [pauli_mat] returns, the result is the block expansion of the
    entries of the selected Pauli matrix. *)
Lemma pauli_mat_Ok_inv (nbasis i : Z) (B : ndarray) :
  pauli_mat nbasis i = Ok B →
  ∃ (N : nat) c00 c01 c10 c11,
    nbasis = (2 * Z.of_nat N)%Z ∧
    pauli_dict !! i = Some (np_array [[c00; c01]; [c10; c11]]) ∧
    B = const_blocks N c00 c01 c10 c11.
Proof.
  intros HB.
  assert (is_ok (pauli_mat nbasis i)) as Hok by by exists B.
  apply pauli_mat_returns_iff in Hok as (Heven & Hpos & Hi).
  apply even_twice in Heven as [N ->].
  destruct (pauli_dict_lookup_Some _ Hi)
    as (spm & c00 & c01 & c10 & c11 & Hspm & ->).
  exists (Z.to_nat N), c00, c01, c10, c11.
  rewrite Z2Nat.id by lia. split; [done|]. split; [done|].
  rewrite <-(Z2Nat.id N) in HB by lia.
  erewrite pauli_mat_even in HB by done.
  rewrite !Cmul_one_l in HB. by injection HB as <-.
Qed.

(** X4: a matrix returned by [pauli_mat nbasis i] is well formed and has
    shape [(nbasis, nbasis)]. *)
Theorem pauli_mat_shape (nbasis i : Z) (B : ndarray) :
  pauli_mat nbasis i = Ok B →
  has_shape (Z.to_nat nbasis) (Z.to_nat nbasis) B.
Proof.
  intros HB.
  apply pauli_mat_Ok_inv in HB as (N & c00 & c01 & c10 & c11 & -> & _ & ->).
  destruct (spin_doubled_const_blocks N c00 c01 c10 c11) as (Hwf & Hr & Hc).
  split; [done|]. split; simpl; lia.
Qed.

Lemma pauli_mat_shape_witness :
  has_shape 4 4
    (np_array [[Czero; Czero; Copp Ci; Copp Ci];
               [Czero; Czero; Copp Ci; Copp Ci];
               [Ci; Ci; Czero; Czero];
               [Ci; Ci; Czero; Czero]]).
Proof. apply (pauli_mat_shape 4 2). compute_done. Defined.

Lemma item_const_blocks (N : nat) (a b c d : complex) (r k : nat) :
  r < 2 * N → k < 2 * N →
  item (const_blocks N a b c d) r k
  = Ok (if decide (r < N)
        then (if decide (k < N) then a else b)
        else (if decide (k < N) then c else d)).
Proof.
  intros Hr Hk. unfold item, const_blocks; simpl.
  assert (∀ x y : complex,
    (replicate N x ++ replicate N y) !! k
    = Some (if decide (k < N) then x else y)) as Hrow.
  { intros x y. case_decide.
    - rewrite lookup_app_l by by rewrite length_replicate.
      by apply lookup_replicate_2.
    - rewrite lookup_app_r by (rewrite length_replicate; lia).
      rewrite length_replicate. apply lookup_replicate_2. lia. }
  destruct (decide (r < N)).
  - rewrite lookup_app_l by by rewrite length_replicate.
    rewrite lookup_replicate_2 by done. by rewrite Hrow.
  - rewrite lookup_app_r by (rewrite length_replicate; lia).
    rewrite length_replicate, lookup_replicate_2 by lia. by rewrite Hrow.
Qed.

(** X5: the entry of [pauli_mat (2N) i] at row [r] and column [k] is the
    entry of the Pauli matrix [pauli_dict[i]] at row [r // N] and column
    [k // N]: each entry of the 2x2 matrix fills an [N x N] block. *)
Theorem pauli_mat_entries (N : nat) (i : Z) (B spm : ndarray) (r k : nat) :
  pauli_mat (2 * Z.of_nat N) i = Ok B →
  pauli_dict !! i = Some spm →
  r < 2 * N → k < 2 * N →
  item B r k = item spm (r `div` N) (k `div` N).
Proof.
  intros HB Hspm Hr Hk.
  apply pauli_mat_Ok_inv in HB as (N' & c00 & c01 & c10 & c11 & HN & Hspm' & ->).
  assert (N' = N) as -> by lia.
  rewrite Hspm in Hspm'. injection Hspm' as ->.
  rewrite item_const_blocks by done.
  assert (∀ n, n < 2 * N → n `div` N = if decide (n < N) then 0 else 1)
    as Hdiv.
  { intros n Hn. case_decide.
    - by apply Nat.div_small.
    - symmetry. apply (Nat.div_unique n N 1 (n - N)); lia. }
  rewrite (Hdiv r), (Hdiv k) by done.
  by repeat case_decide.
Qed.

Lemma pauli_mat_entries_witness :
  ∃ B, pauli_mat (2 * Z.of_nat 2) 2 = Ok B ∧
       item B 3 1 = item s2 (3 `div` 2) (1 `div` 2).
Proof.
  eexists. split; [reflexivity|].
  apply (pauli_mat_entries 2 2 _ s2 3 1); [reflexivity|reflexivity|lia|lia].
Defined.

(** ** The scalar decomposition: shapes, inverse and linearity *)

(** X6: decomposing the matrix [I*s0 + x*s1 + y*s2 + z*s3] gives back the
    coefficients [(I, x, y, z)]. *)
Theorem pauli_decomp_recompose (I x y z : complex) :
  ∃ M, pauli_recompose I x y z = Ok M ∧
       pauli_decomp M = Ok (I, x, y, z).
Proof.
  eexists. split; [reflexivity|].
  unfold pauli_decomp, np_dot, np_trace, Csum, row_times; simpl.
  do 2 f_equal; [do 2 f_equal|]; cx.
Qed.

(** X7: [pauli_decomp M] returns exactly when [M] has two rows, whatever
    the number of columns is; on any other number of rows it raises
    [ValueError], from the product [s0.dot(M)]. *)
Theorem pauli_decomp_returns_iff (M : ndarray) :
  (is_ok (pauli_decomp M) ↔ nrows M = 2) ∧
  (nrows M ≠ 2 → pauli_decomp M = Raise ValueError).
Proof.
  unfold pauli_decomp, np_dot.
  change (ncols s0) with 2; change (ncols s1) with 2;
    change (ncols s2) with 2; change (ncols s3) with 2.
  destruct (decide (2 = nrows M)) as [E|E]; cbn [rbind].
  - split; [|done]. split; [done|]. intros _. by eexists.
  - split; [|done]. split; [by intros [??]|]. by intros ?.
Qed.

Lemma bdim_2_Some (n : nat) : is_Some (bdim n 2) ↔ n = 1 ∨ n = 2.
Proof.
  unfold bdim. repeat case_decide; split; intros Hn; try lia; try done.
Qed.

(** X8: [pauli_decomp2 M] returns exactly when each dimension of [M] is 1
    or 2, the shapes that broadcast against the 2x2 Pauli matrices; on any
    other shape it raises [ValueError], from the product [M * s0T]. *)
Theorem pauli_decomp2_returns_iff (M : ndarray) :
  (is_ok (pauli_decomp2 M) ↔
   (nrows M = 1 ∨ nrows M = 2) ∧ (ncols M = 1 ∨ ncols M = 2)) ∧
  (¬ ((nrows M = 1 ∨ nrows M = 2) ∧ (ncols M = 1 ∨ ncols M = 2)) →
   pauli_decomp2 M = Raise ValueError).
Proof.
  rewrite <-!bdim_2_Some.
  unfold pauli_decomp2, np_mul, np_binop; simpl.
  destruct (bdim (nrows M) 2) as [r|], (bdim (ncols M) 2) as [c|]; simpl.
  - split; [|by intros []]. split; [by eauto|]. intros _. by eexists.
  - split; [|done]. split; [by intros [??]|]. by intros [_ [??]].
  - split; [|done]. split; [by intros [??]|]. by intros [[??] _].
  - split; [|done]. split; [by intros [??]|]. by intros [[??] _].
Qed.

(** X9: the two methods differ on a 1x1 matrix [[a]]: [pauli_decomp]
    raises [ValueError], while [pauli_decomp2] broadcasts the entry over
    the Pauli matrices and returns [(a, a, 0, 0)]. *)
Theorem pauli_decomp_1x1 (a : complex) :
  pauli_decomp (np_array [[a]]) = Raise ValueError ∧
  pauli_decomp2 (np_array [[a]]) = Ok (a, a, Czero, Czero).
Proof.
  split; [reflexivity|].
  unfold pauli_decomp2, np_mul, np_binop, np_sum, Csum; simpl.
  do 2 f_equal; [do 2 f_equal|]; cx.
Qed.

(** X10: on a matrix with two rows and more than two columns,
    [pauli_decomp] reads the leading 2x2 block only. *)
Theorem pauli_decomp_wide (a b c d : complex) (r1 r2 : list complex) :
  length r1 = length r2 →
  pauli_decomp (np_array [a :: b :: r1; c :: d :: r2])
  = pauli_decomp (np_array [[a; b]; [c; d]]).
Proof.
  intros _. rewrite pauli_decomp_2x2.
  unfold pauli_decomp, np_dot, np_trace, Csum, row_times; simpl.
  do 2 f_equal; [do 2 f_equal|]; f_equal; cx.
Qed.

Lemma pauli_decomp_wide_witness :
  pauli_decomp (np_array [[Cint 1 0; Cint 2 0; Cint 5 0];
                          [Cint 3 0; Cint 4 0; Cint 6 0]])
  = pauli_decomp (np_array [[Cint 1 0; Cint 2 0]; [Cint 3 0; Cint 4 0]]).
Proof.
  apply (pauli_decomp_wide (Cint 1 0) (Cint 2 0) (Cint 3 0) (Cint 4 0)
           [Cint 5 0] [Cint 6 0]).
  reflexivity.
Defined.

(** X11: [pauli_decomp] is linear on 2x2 matrices: the coefficients of
    [k*A + B] are [k] times those of [A] plus those of [B]. *)
Theorem pauli_decomp_linear (k a b c d a' b' c' d' : complex) :
  ∃ I x y z I' x' y' z',
    pauli_decomp (np_array [[a; b]; [c; d]]) = Ok (I, x, y, z) ∧
    pauli_decomp (np_array [[a'; b']; [c'; d']]) = Ok (I', x', y', z') ∧
    pauli_decomp
      (np_array [[Cadd (Cmul k a) a'; Cadd (Cmul k b) b'];
                 [Cadd (Cmul k c) c'; Cadd (Cmul k d) d']])
    = Ok (Cadd (Cmul k I) I', Cadd (Cmul k x) x',
          Cadd (Cmul k y) y', Cadd (Cmul k z) z').
Proof.
  do 8 eexists. rewrite !pauli_decomp_2x2.
  split; [reflexivity|]. split; [reflexivity|].
  do 2 f_equal; [do 2 f_equal|]; cx.
Qed.

(** X12: on a 2x2 matrix the block decomposition and the scalar
    decomposition agree: [pauli_block_all] returns the four coefficients
    of [pauli_decomp] as 1x1 blocks. *)
Theorem pauli_block_all_2x2 (a b c d : complex) :
  ∃ I x y z,
    pauli_decomp (np_array [[a; b]; [c; d]]) = Ok (I, x, y, z) ∧
    pauli_block_all (np_array [[a; b]; [c; d]])
    = Ok (np_array [[I]], np_array [[x]], np_array [[y]], np_array [[z]]).
Proof.
  do 4 eexists. split; [apply pauli_decomp_2x2|].
  rewrite (pauli_block_all_blocks 1 1).
  - unfold block_I, block_x, block_y, block_z, np_array; simpl.
    repeat f_equal; cx.
  - split; [split|]; simpl; [done|repeat constructor|done].
Qed.

(** X13: in exact arithmetic [pauli_sigma_norm] does not see the identity
    part: adding [k * s0] to a 2x2 matrix of exact entries leaves its value
    as it is, whatever the norm function is.  (In binary64 the sums
    [a + k] and [d + k] are rounded, and their difference need not be that
    of [a] and [d].) *)
Theorem pauli_sigma_norm_shift (linalg_norm : list complex → complex)
    (k a b c d : complex) :
  pauli_sigma_norm linalg_norm
    (np_array [[Cadd a k; b]; [c; Cadd d k]])
  = pauli_sigma_norm linalg_norm (np_array [[a; b]; [c; d]]).
Proof.
  unfold pauli_sigma_norm. rewrite !pauli_decomp2_2x2; simpl.
  by replace (half (Csub (Cadd a k) (Cadd d k))) with (half (Csub a d)) by cx.
Qed.

(** ** The block decomposition: inverse and odd shapes *)

Lemma has_shape_zip2 f A B r c :
  has_shape r c A → has_shape r c B →
  has_shape r c (NDArray r c (zip_with (zip_with f) (rows A) (rows B))).
Proof.
  intros (HA & HrA & HcA) (HB & HrB & HcB).
  split; [by apply wf_zip2|done].
Qed.

Lemma np_binop_has_shape f A B r c :
  has_shape r c A → has_shape r c B →
  np_binop f A B = Ok (NDArray r c (zip_with (zip_with f) (rows A) (rows B))).
Proof.
  intros (HA & HrA & HcA) (HB & HrB & HcB).
  rewrite np_binop_same by (done || congruence). by rewrite HrA, HcA.
Qed.

Lemma has_shape_np_map f A r c : has_shape r c A → has_shape r c (np_map f A).
Proof. intros (HA & Hr & Hc). split; [by apply wf_np_map|done]. Qed.

Lemma has_shape_same_shape A B r c :
  has_shape r c A → has_shape r c B → same_shape (rows A) (rows B).
Proof.
  intros (HA & HrA & HcA) (HB & HrB & HcB).
  apply wf_same_shape; (done || congruence).
Qed.

Lemma has_shape_eta A r c :
  has_shape r c A → NDArray r c (rows A) = A.
Proof. intros (_ & <- & <-). by destruct A. Qed.

(** The blocks of a block layout. *)
Section layout.
Context (norb1 norb2 : nat) (A B C D : ndarray).
Hypothesis HA : has_shape norb1 norb2 A.
Hypothesis HB : has_shape norb1 norb2 B.
Hypothesis HC : has_shape norb1 norb2 C.
Hypothesis HD : has_shape norb1 norb2 D.

Lemma length_zip_app_rows (X Y : ndarray) :
  has_shape norb1 norb2 X → has_shape norb1 norb2 Y →
  length (zip_with app (rows X) (rows Y)) = norb1.
Proof.
  intros ([HX _] & HrX & _) ([HY _] & HrY & _).
  rewrite length_zip_with. lia.
Qed.

Lemma take_zip_app_rows (X Y : ndarray) :
  has_shape norb1 norb2 X → has_shape norb1 norb2 Y →
  take norb2 <$> zip_with app (rows X) (rows Y) = rows X.
Proof.
  intros HX HY. pose proof (has_shape_same_shape _ _ _ _ HX HY) as Hs.
  destruct HX as ([_ HcX] & _ & HncX). rewrite HncX in HcX.
  induction Hs as [|x y X' Y' Hxy Hs IH]; csimpl; [done|].
  apply Forall_cons in HcX as [Hx HcX].
  rewrite IH by done. f_equal. by apply take_app_length'.
Qed.

Lemma drop_zip_app_rows (X Y : ndarray) :
  has_shape norb1 norb2 X → has_shape norb1 norb2 Y →
  drop norb2 <$> zip_with app (rows X) (rows Y) = rows Y.
Proof.
  intros HX HY. pose proof (has_shape_same_shape _ _ _ _ HX HY) as Hs.
  destruct HX as ([_ HcX] & _ & HncX). rewrite HncX in HcX.
  induction Hs as [|x y X' Y' Hxy Hs IH]; csimpl; [done|].
  apply Forall_cons in HcX as [Hx HcX].
  rewrite IH by done. f_equal. by apply drop_app_length'.
Qed.

Lemma spin_doubled_block_layout :
  spin_doubled norb1 norb2 (block_layout norb1 norb2 A B C D).
Proof.
  split; [split|]; simpl; [| |lia].
  - rewrite length_app, !length_zip_app_rows by done. done.
  - assert (∀ X Y, has_shape norb1 norb2 X → has_shape norb1 norb2 Y →
      Forall (λ r, length r = norb2 + norb2) (zip_with app (rows X) (rows Y)))
      as Hrows.
    { intros X Y ([_ HcX] & _ & HnX) ([_ HcY] & _ & HnY).
      apply Forall_lookup. intros i row Hi.
      apply lookup_zip_with_Some in Hi as (r1 & r2 & -> & H1 & H2).
      rewrite length_app.
      rewrite (Forall_lookup_1 _ _ _ _ HcX H1), (Forall_lookup_1 _ _ _ _ HcY H2).
      lia. }
    apply Forall_app; split; by apply Hrows.
Qed.

Lemma upup_block_layout :
  upup norb1 norb2 (block_layout norb1 norb2 A B C D) = A.
Proof.
  unfold upup, block_layout; simpl.
  rewrite take_app_length' by by rewrite length_zip_app_rows.
  rewrite take_zip_app_rows by done. by apply has_shape_eta.
Qed.

Lemma updn_block_layout :
  updn norb1 norb2 (block_layout norb1 norb2 A B C D) = B.
Proof.
  unfold updn, block_layout; simpl.
  rewrite take_app_length' by by rewrite length_zip_app_rows.
  rewrite drop_zip_app_rows by done. by apply has_shape_eta.
Qed.

Lemma dnup_block_layout :
  dnup norb1 norb2 (block_layout norb1 norb2 A B C D) = C.
Proof.
  unfold dnup, block_layout; simpl.
  rewrite drop_app_length' by by rewrite length_zip_app_rows.
  rewrite take_zip_app_rows by done. by apply has_shape_eta.
Qed.

Lemma dndn_block_layout :
  dndn norb1 norb2 (block_layout norb1 norb2 A B C D) = D.
Proof.
  unfold dndn, block_layout; simpl.
  rewrite drop_app_length' by by rewrite length_zip_app_rows.
  rewrite drop_zip_app_rows by done. by apply has_shape_eta.
Qed.

Lemma np_block_layout :
  np_block A B C D = Ok (block_layout norb1 norb2 A B C D).
Proof.
  destruct HA as (_ & HrA & HcA), HB as (_ & HrB & HcB),
    HC as (_ & HrC & HcC), HD as (_ & HrD & HcD).
  unfold np_block, hstack.
  rewrite !decide_True by congruence; simpl.
  unfold vstack; simpl. rewrite decide_True by congruence.
  unfold block_layout. by rewrite HrA, HrC, HcA, HcB.
Qed.
End layout.

Lemma half_disum_l a b : half (Cadd (Cadd a b) (Csub a b)) = a.
Proof. cx. Qed.
Lemma half_didiff_l a b : half (Csub (Cadd a b) (Csub a b)) = b.
Proof. cx. Qed.
Lemma half_x_of_xy x y :
  half (Cadd (Csub x (Cmul y Ci)) (Cadd x (Cmul y Ci))) = x.
Proof. cx. Qed.
Lemma half_y_of_xy x y :
  half (Cadd (Cmul (Csub x (Cmul y Ci)) Ci)
             (Cmul (Cadd x (Cmul y Ci)) (Copp Ci))) = y.
Proof. cx. Qed.

(** X14: for four well-formed blocks of one shape, decomposing the matrix
    assembled from them by the inverse formulas gives the four blocks
    back. *)
Theorem pauli_block_all_reassemble (norb1 norb2 : nat)
    (MI Mx My Mz : ndarray) :
  has_shape norb1 norb2 MI → has_shape norb1 norb2 Mx →
  has_shape norb1 norb2 My → has_shape norb1 norb2 Mz →
  ∃ M, pauli_reassemble MI Mx My Mz = Ok M ∧
       pauli_block_all M = Ok (MI, Mx, My, Mz).
Proof.
  intros HI Hx Hy Hz.
  pose proof (has_shape_np_map (λ x, Cmul x Ci) _ _ _ Hy) as Hyi.
  pose proof (has_shape_zip2 Cadd _ _ _ _ HI Hz) as Huu.
  pose proof (has_shape_zip2 Csub _ _ _ _ Hx Hyi) as Hud.
  pose proof (has_shape_zip2 Cadd _ _ _ _ Hx Hyi) as Hdu.
  pose proof (has_shape_zip2 Csub _ _ _ _ HI Hz) as Hdd.
  eexists. split.
  - unfold pauli_reassemble, np_add, np_sub, np_scale.
    rewrite !(np_binop_has_shape _ _ _ norb1 norb2) by done. simpl.
    by apply np_block_layout.
  - rewrite (pauli_block_all_blocks norb1 norb2)
      by by apply spin_doubled_block_layout.
    unfold block_I, block_x, block_y, block_z.
    rewrite upup_block_layout, updn_block_layout, dnup_block_layout,
      dndn_block_layout by done.
    simpl. rewrite !(zip2_fmap_r (λ x, Cmul x Ci)), !zip2_zip2.
    pose proof (has_shape_same_shape _ _ _ _ HI Hz) as HsI.
    pose proof (has_shape_same_shape _ _ _ _ Hx Hy) as Hsx.
    rewrite (zip2_ext _ (λ a _, a)), zip2_fst by auto using half_disum_l.
    rewrite (zip2_ext _ (λ a _, a)), zip2_fst by auto using half_x_of_xy.
    rewrite (zip2_ext _ (λ _ b, b)), zip2_snd by auto using half_y_of_xy.
    rewrite (zip2_ext _ (λ _ b, b)), zip2_snd by auto using half_didiff_l.
    by rewrite !(has_shape_eta _ norb1 norb2).
Qed.

(** Shapes of literal arrays. *)
Ltac literal_shape :=
  repeat split; simpl; repeat constructor.

Lemma pauli_block_all_reassemble_witness :
  ∃ M, pauli_reassemble (np_array [[Cint 1 0; Cint 2 1]])
                        (np_array [[Cint 0 1; Cint 3 0]])
                        (np_array [[Cint 5 0; Cint 0 0]])
                        (np_array [[Cint (-1) 0; Cint 4 4]]) = Ok M ∧
       pauli_block_all M
       = Ok (np_array [[Cint 1 0; Cint 2 1]], np_array [[Cint 0 1; Cint 3 0]],
             np_array [[Cint 5 0; Cint 0 0]],
             np_array [[Cint (-1) 0; Cint 4 4]]).
Proof.
  apply (pauli_block_all_reassemble 1 2); literal_shape.
Defined.

(** X15: on a matrix with an odd number of rows, or of columns, that is at
    least 5, [pauli_block_all] raises [ValueError]: the two diagonal
    blocks differ in size by one and do not broadcast. *)
Theorem pauli_block_all_odd (M : ndarray) (k : nat) :
  2 ≤ k → nrows M = 2 * k + 1 ∨ ncols M = 2 * k + 1 →
  pauli_block_all M = Raise ValueError.
Proof.
  intros Hk Hodd. unfold pauli_block_all; simpl.
  unfold np_add at 1. unfold np_binop; simpl.
  assert (∀ n, n = 2 * k + 1 →
    bdim (slice_len (upto (Z.of_nat n `div` 2)) n)
         (slice_len (from (Z.of_nat n `div` 2)) n) = None) as Hnone.
  { intros n ->.
    replace (Z.of_nat (2 * k + 1) `div` 2)%Z with (Z.of_nat k)
      by (apply (Z.div_unique _ _ _ 1); lia).
    rewrite slice_len_upto, slice_len_from.
    unfold bdim. by rewrite !decide_False by lia. }
  destruct Hodd as [Hr|Hc].
  - by rewrite (Hnone _ Hr).
  - rewrite (Hnone _ Hc). by destruct (bdim _ _).
Qed.

Lemma pauli_block_all_odd_witness :
  pauli_block_all (np_zeros 5 4) = Raise ValueError.
Proof. apply (pauli_block_all_odd (np_zeros 5 4) 2); [lia|by left]. Defined.

(** X16: on a 3x3 matrix [pauli_block_all] does not raise: the 1x1 corner
    block is broadcast against the 2x2 block, and the 1x2 and 2x1 strips
    against each other, so it returns four 2x2 blocks in which the corner
    entry is paired with every entry of the lower block. *)
Theorem pauli_block_all_3x3
    (m00 m01 m02 m10 m11 m12 m20 m21 m22 : complex) :
  let y b c := half (Cadd (Cmul b Ci) (Cmul c (Copp Ci))) in
  pauli_block_all
    (np_array [[m00; m01; m02]; [m10; m11; m12]; [m20; m21; m22]])
  = Ok (np_array [[half (Cadd m00 m11); half (Cadd m00 m12)];
                  [half (Cadd m00 m21); half (Cadd m00 m22)]],
        np_array [[half (Cadd m01 m10); half (Cadd m02 m10)];
                  [half (Cadd m01 m20); half (Cadd m02 m20)]],
        np_array [[y m01 m10; y m02 m10]; [y m01 m20; y m02 m20]],
        np_array [[half (Csub m00 m11); half (Csub m00 m12)];
                  [half (Csub m00 m21); half (Csub m00 m22)]]).
Proof. reflexivity. Qed.

(** ** [pauli_block_sigma_norm]: the sign of the trace *)

Lemma np_scale_one A : np_scale A Cone = A.
Proof.
  unfold np_scale, np_map. destruct A as [r c R]; simpl. f_equal.
  rewrite <-(list_fmap_id R) at 2. apply list_fmap_ext. intros _ row _.
  rewrite <-(list_fmap_id row) at 2. apply list_fmap_ext. intros _ x _.
  apply Cmul_one_r.
Qed.

Lemma np_scale_minus_one A : np_scale A (Copp Cone) = np_map Copp A.
Proof.
  unfold np_scale, np_map. f_equal.
  apply list_fmap_ext. intros _ row _.
  apply list_fmap_ext. intros _ x _.
  destruct x; cx_unfold; f_equal; ring.
Qed.

Lemma np_sign_positive (q : Qc) : (0 < q)%Qc → np_sign (Cplx q 0) = Cone.
Proof.
  intros Hq. unfold np_sign, Qc_sign; simpl.
  assert (q ≠ 0%Qc) by (symmetry; by apply Qclt_not_eq).
  rewrite !decide_False by done.
  destruct (Qclt_le_dec 0 q) as [|Hle]; [done|].
  by destruct (Qclt_not_le _ _ Hq).
Qed.

Lemma np_sign_negative (q : Qc) :
  (q < 0)%Qc → np_sign (Cplx q 0) = Copp Cone.
Proof.
  intros Hq. unfold np_sign, Qc_sign; simpl.
  assert (q ≠ 0%Qc) by by apply Qclt_not_eq.
  rewrite !decide_False by done.
  destruct (Qclt_le_dec 0 q) as [Hlt|Hle].
  - destruct (Qclt_not_le _ _ Hq). by apply Qclt_le_weak.
  - unfold Copp, Cone. simpl. f_equal; by apply Qc_is_canon.
Qed.

(** X17: when the trace of the z block [Mz] is a positive real number,
    [pauli_block_sigma_norm M] is [Mz] itself. *)
Theorem pauli_block_sigma_norm_positive (M MI Mx My Mz : ndarray) (q : Qc) :
  pauli_block_all M = Ok (MI, Mx, My, Mz) →
  np_trace Mz = Cplx q 0 → (0 < q)%Qc →
  pauli_block_sigma_norm M = Ok Mz.
Proof.
  intros Hall Htr Hq. unfold pauli_block_sigma_norm. rewrite Hall; simpl.
  by rewrite Htr, np_sign_positive, np_scale_one.
Qed.

(** X18: when the trace of the z block [Mz] is a negative real number,
    [pauli_block_sigma_norm M] is [-Mz]. *)
Theorem pauli_block_sigma_norm_negative (M MI Mx My Mz : ndarray) (q : Qc) :
  pauli_block_all M = Ok (MI, Mx, My, Mz) →
  np_trace Mz = Cplx q 0 → (q < 0)%Qc →
  pauli_block_sigma_norm M = Ok (np_map Copp Mz).
Proof.
  intros Hall Htr Hq. unfold pauli_block_sigma_norm. rewrite Hall; simpl.
  by rewrite Htr, np_sign_negative, np_scale_minus_one.
Qed.

Lemma pauli_block_sigma_norm_positive_witness :
  pauli_block_sigma_norm example_positive
  = Ok (block_z 2 2 example_positive).
Proof.
  apply (pauli_block_sigma_norm_positive example_positive
           (block_I 2 2 example_positive) (block_x 2 2 example_positive)
           (block_y 2 2 example_positive) (block_z 2 2 example_positive) 1).
  - compute_done.
  - compute_done.
  - reflexivity.
Defined.

Lemma pauli_block_sigma_norm_negative_witness :
  pauli_block_sigma_norm example_negative
  = Ok (np_map Copp (block_z 2 2 example_negative)).
Proof.
  apply (pauli_block_sigma_norm_negative example_negative
           (block_I 2 2 example_negative) (block_x 2 2 example_negative)
           (block_y 2 2 example_negative) (block_z 2 2 example_negative)
           (-1)%Qc).
  - compute_done.
  - compute_done.
  - reflexivity.
Defined.

(** ** The single-axis helpers *)

(** Assigning a block of columns in every row of a row list. *)
Lemma zip_set_cols_left (m : nat) (X Y V : list (list complex)) :
  length X = length Y →
  Forall (λ r, length r = m) X →
  zip_with (λ row v, take 0 row ++ v ++ drop (0 + m) row)
           (zip_with app X Y) V
  = zip_with app V Y.
Proof.
  intros Hlen HX. revert Y V Hlen.
  induction HX as [|x X Hx _ IH]; intros [|y Y] [|v V] Hlen;
    simpl in *; try done.
  rewrite IH by lia. f_equal. f_equal. by apply drop_app_length'.
Qed.

Lemma zip_set_cols_right (m : nat) (X Y V : list (list complex)) :
  length X = length Y →
  Forall (λ r, length r = m) X → Forall (λ r, length r = m) Y →
  zip_with (λ row v, take m row ++ v ++ drop (m + m) row)
           (zip_with app X Y) V
  = zip_with app X V.
Proof.
  intros Hlen HX. revert Y V Hlen.
  induction HX as [|x X Hx _ IH]; intros [|y Y] [|v V] Hlen HY;
    simpl in *; try done.
  apply Forall_cons in HY as [Hy HY].
  rewrite IH by (done || lia). f_equal.
  rewrite take_app_length' by done.
  rewrite drop_ge by (rewrite length_app; lia).
  by rewrite app_nil_r.
Qed.

Lemma broadcast_to_has_shape r c V :
  has_shape r c V → Store.broadcast_to r c V = Ok (rows V).
Proof.
  intros (HV & Hr & Hc). unfold Store.broadcast_to.
  rewrite decide_True by auto.
  by rewrite <-Hr, <-Hc, broadcast_rows_id.
Qed.

Lemma slice_start_from_half (n : nat) :
  slice_start (from (Z.of_nat n)) (n + n) = n.
Proof. rewrite slice_start_from. lia. Qed.
Lemma slice_len_from_half (n : nat) :
  slice_len (from (Z.of_nat n)) (n + n) = n.
Proof. rewrite slice_len_from. lia. Qed.
Lemma slice_len_upto_half (n : nat) :
  slice_len (upto (Z.of_nat n)) (n + n) = n.
Proof. rewrite slice_len_upto. lia. Qed.

(** Assigning to one quadrant of a block layout replaces that block. *)
Section setitem_layout.
Context (n m : nat) (A B C D V : ndarray).
Hypothesis HA : has_shape n m A.
Hypothesis HB : has_shape n m B.
Hypothesis HC : has_shape n m C.
Hypothesis HD : has_shape n m D.
Hypothesis HV : has_shape n m V.

Local Abbreviation top := (zip_with app (rows A) (rows B)).
Local Abbreviation bot := (zip_with app (rows C) (rows D)).

Lemma length_top : length top = n.
Proof. by apply (length_zip_app_rows n m). Qed.
Lemma length_bot : length bot = n.
Proof. by apply (length_zip_app_rows n m). Qed.

Lemma rows_shape (X : ndarray) :
  has_shape n m X → length (rows X) = n ∧ Forall (λ r, length r = m) (rows X).
Proof. intros ([Hl Hf] & Hr & Hc). by rewrite <-Hr, <-Hc. Qed.

Lemma setitem_layout_eq rs cs :
  slice_len rs (n + n) = n → slice_len cs (m + m) = m →
  Store.setitem (block_layout n m A B C D) rs cs V
  = Ok (NDArray (n + n) (m + m)
          (take (slice_start rs (n + n)) (top ++ bot) ++
           zip_with (λ row vrow,
                       take (slice_start cs (m + m)) row ++ vrow ++
                       drop (slice_start cs (m + m) + m) row)
                    (take n (drop (slice_start rs (n + n)) (top ++ bot)))
                    (rows V) ++
           drop (slice_start rs (n + n) + n) (top ++ bot))).
Proof.
  intros Hrs Hcs. unfold Store.setitem. cbn [nrows ncols rows block_layout].
  rewrite Hrs, Hcs, broadcast_to_has_shape by done. done.
Qed.

Lemma setitem_upup :
  Store.setitem (block_layout n m A B C D)
    (upto (Z.of_nat n)) (upto (Z.of_nat m)) V
  = Ok (block_layout n m V B C D).
Proof.
  destruct (rows_shape A HA) as [HlA HfA], (rows_shape B HB) as [HlB HfB].
  rewrite setitem_layout_eq by apply slice_len_upto_half.
  rewrite !slice_start_upto, take_0, drop_0, Nat.add_0_l.
  rewrite take_app_length', drop_app_length' by by rewrite length_top.
  rewrite (zip_set_cols_left m) by (done || congruence). done.
Qed.

Lemma setitem_updn :
  Store.setitem (block_layout n m A B C D)
    (upto (Z.of_nat n)) (from (Z.of_nat m)) V
  = Ok (block_layout n m A V C D).
Proof.
  destruct (rows_shape A HA) as [HlA HfA], (rows_shape B HB) as [HlB HfB].
  rewrite setitem_layout_eq
    by (apply slice_len_upto_half || apply slice_len_from_half).
  rewrite slice_start_upto, slice_start_from_half, take_0, drop_0,
    Nat.add_0_l.
  rewrite take_app_length', drop_app_length' by by rewrite length_top.
  rewrite (zip_set_cols_right m) by (done || congruence). done.
Qed.

Lemma setitem_dnup :
  Store.setitem (block_layout n m A B C D)
    (from (Z.of_nat n)) (upto (Z.of_nat m)) V
  = Ok (block_layout n m A B V D).
Proof.
  destruct (rows_shape C HC) as [HlC HfC], (rows_shape D HD) as [HlD HfD].
  rewrite setitem_layout_eq
    by (apply slice_len_upto_half || apply slice_len_from_half).
  rewrite slice_start_upto, slice_start_from_half.
  rewrite take_app_length', !drop_app_length' by by rewrite length_top.
  rewrite take_ge by by rewrite length_bot.
  rewrite drop_ge by (rewrite length_app, length_top, length_bot; lia).
  rewrite (zip_set_cols_left m) by (done || congruence).
  by rewrite app_nil_r.
Qed.

Lemma setitem_dndn :
  Store.setitem (block_layout n m A B C D)
    (from (Z.of_nat n)) (from (Z.of_nat m)) V
  = Ok (block_layout n m A B C V).
Proof.
  destruct (rows_shape C HC) as [HlC HfC], (rows_shape D HD) as [HlD HfD].
  rewrite setitem_layout_eq by apply slice_len_from_half.
  rewrite !slice_start_from_half.
  rewrite take_app_length', !drop_app_length' by by rewrite length_top.
  rewrite take_ge by by rewrite length_bot.
  rewrite drop_ge by (rewrite length_app, length_top, length_bot; lia).
  rewrite (zip_set_cols_right m) by (done || congruence).
  by rewrite app_nil_r.
Qed.
End setitem_layout.

Lemma has_shape_np_full r c x : has_shape r c (np_full r c x).
Proof. split; [apply wf_np_full|done]. Qed.

Lemma zeros_like_spin_doubled n m M :
  spin_doubled n m M →
  zeros_like M
  = block_layout n m (np_zeros n m) (np_zeros n m)
                     (np_zeros n m) (np_zeros n m).
Proof.
  intros (_ & Hr & Hc). unfold zeros_like, np_zeros, np_full, block_layout.
  rewrite Hr, Hc. simpl.
  rewrite !Nat.add_0_r, !zip_with_replicate, <-!replicate_add.
  done.
Qed.

(** ** The single-axis helpers, with element types *)

Lemma promote_idemp dt : Typed.promote dt dt = dt.
Proof. by destruct dt. Qed.

Lemma has_shape_np_scale A c r k :
  has_shape r k A → has_shape r k (np_scale A c).
Proof. apply has_shape_np_map. Qed.

Lemma has_shape_np_divr A q r k :
  has_shape r k A → has_shape r k (np_divr A q).
Proof. apply has_shape_np_map. Qed.

Lemma has_shape_blocks n m M :
  spin_doubled n m M →
  has_shape n m (upup n m M) ∧ has_shape n m (updn n m M) ∧
  has_shape n m (dnup n m M) ∧ has_shape n m (dndn n m M).
Proof.
  intros HM.
  assert (∀ X, wf X → nrows X = n → ncols X = m → has_shape n m X) as Hs
    by (by intros X ? ? ?; split).
  repeat apply conj; apply Hs; eauto with wf.
Qed.

Lemma typed_np_binop_has_shape f d1 d2 A B r c :
  has_shape r c A → has_shape r c B →
  Typed.np_binop f (Typed.TArray d1 A) (Typed.TArray d2 B)
  = Ok (typed_zip (Typed.promote d1 d2) f A B).
Proof.
  intros HA HB. unfold Typed.np_binop, typed_zip. cbn [Typed.data Typed.dtype_of].
  rewrite (np_binop_has_shape f A B r c) by done. cbn [rbind].
  destruct HA as (_ & -> & ->). done.
Qed.

Lemma has_shape_typed_zip dt f A B r c :
  has_shape r c A → has_shape r c B →
  has_shape r c (Typed.data (typed_zip dt f A B)).
Proof.
  intros HA HB. unfold typed_zip; cbn [Typed.data].
  apply has_shape_np_map.
  destruct HA as (HA & HrA & HcA). rewrite HrA, HcA.
  by apply has_shape_zip2.
Qed.

Section typed_blocks.
Context (dt : Typed.dtype) (n m : nat) (M : ndarray).
Hypothesis HM : spin_doubled n m M.

Lemma has_shape_typed_I : has_shape n m (Typed.data (typed_I dt n m M)).
Proof.
  destruct (has_shape_blocks _ _ _ HM) as (? & ? & ? & ?).
  by apply has_shape_np_divr, has_shape_typed_zip.
Qed.
Lemma has_shape_typed_x : has_shape n m (Typed.data (typed_x dt n m M)).
Proof.
  destruct (has_shape_blocks _ _ _ HM) as (? & ? & ? & ?).
  by apply has_shape_np_divr, has_shape_typed_zip.
Qed.
Lemma has_shape_typed_y : has_shape n m (Typed.data (typed_y n m M)).
Proof.
  destruct (has_shape_blocks _ _ _ HM) as (? & ? & ? & ?).
  by apply has_shape_np_divr, has_shape_typed_zip; apply has_shape_np_scale.
Qed.
Lemma has_shape_typed_z : has_shape n m (Typed.data (typed_z dt n m M)).
Proof.
  destruct (has_shape_blocks _ _ _ HM) as (? & ? & ? & ?).
  by apply has_shape_np_divr, has_shape_typed_zip.
Qed.

(** On a matrix of shape [(2n, 2m)] the typed [pauli_block_all] returns the
    four typed components. *)
Lemma typed_pauli_block_all_blocks :
  Typed.pauli_block_all (Typed.TArray dt M)
  = Ok (typed_I dt n m M, typed_x dt n m M, typed_y n m M, typed_z dt n m M).
Proof.
  destruct (has_shape_blocks _ _ _ HM) as (Huu & Hud & Hdu & Hdd).
  unfold Typed.pauli_block_all. cbn [Typed.data].
  rewrite (half_shape_spin_doubled _ _ _ HM). cbn [rbind unpack2].
  unfold Typed.np_add, Typed.np_sub, Typed.getitem, Typed.np_scale.
  cbn [Typed.data Typed.dtype_of].
  rewrite (getitem_upup _ _ _ HM), (getitem_updn _ _ _ HM),
    (getitem_dnup _ _ _ HM), (getitem_dndn _ _ _ HM).
  rewrite !(typed_np_binop_has_shape _ _ _ _ _ n m)
    by (done || by apply has_shape_np_scale).
  reflexivity.
Qed.
End typed_blocks.

Lemma typed_np_scale_eq d A c :
  Typed.np_scale (Typed.TArray d A) c
  = Typed.TArray Typed.complex128 (np_scale A c).
Proof. reflexivity. Qed.

Section helpers_run.
Context (dt : Typed.dtype) (n : nat) (M : ndarray).
Hypothesis HM : spin_doubled n n M.

Local Abbreviation norb := (Z.of_nat n).
Local Abbreviation Zero := (np_zeros n n).
Local Abbreviation into X := (Typed.data (Typed.astype dt X)).

Lemma has_shape_into X : has_shape n n (Typed.data X) → has_shape n n (into X).
Proof. apply has_shape_np_map. Qed.

Lemma typed_pauli_block_I_run :
  Typed.pauli_block_I (Typed.TArray dt M) norb
  = Ok (Typed.TArray dt
          (block_layout n n (into (typed_I dt n n M)) Zero
                            Zero (into (typed_I dt n n M)))).
Proof.
  destruct (has_shape_blocks _ _ _ HM) as (Huu & Hud & Hdu & Hdd).
  pose proof (has_shape_np_full n n Czero) as H0.
  pose proof (has_shape_into _ (has_shape_typed_I dt n n M HM)) as HI.
  unfold Typed.pauli_block_I, Typed.np_add, Typed.getitem.
  cbn [Typed.data Typed.dtype_of].
  rewrite (getitem_upup _ _ _ HM), (getitem_dndn _ _ _ HM).
  rewrite (typed_np_binop_has_shape _ _ _ _ _ n n) by done.
  cbn [rbind]. cbv zeta. fold (typed_I dt n n M).
  unfold Typed.setitem, Typed.zeros_like. cbn [Typed.data Typed.dtype_of].
  rewrite (zeros_like_spin_doubled _ _ _ HM).
  rewrite setitem_upup by done. cbn [rbind Typed.data Typed.dtype_of].
  by rewrite setitem_dndn by done.
Qed.

Lemma typed_pauli_block_x_run :
  Typed.pauli_block_x (Typed.TArray dt M) norb
  = Ok (Typed.TArray dt
          (block_layout n n Zero (into (typed_x dt n n M))
                            (into (typed_x dt n n M)) Zero)).
Proof.
  destruct (has_shape_blocks _ _ _ HM) as (Huu & Hud & Hdu & Hdd).
  pose proof (has_shape_np_full n n Czero) as H0.
  pose proof (has_shape_into _ (has_shape_typed_x dt n n M HM)) as Hx.
  unfold Typed.pauli_block_x, Typed.np_add, Typed.getitem.
  cbn [Typed.data Typed.dtype_of].
  rewrite (getitem_updn _ _ _ HM), (getitem_dnup _ _ _ HM).
  rewrite (typed_np_binop_has_shape _ _ _ _ _ n n) by done.
  cbn [rbind]. cbv zeta. fold (typed_x dt n n M).
  unfold Typed.setitem, Typed.zeros_like. cbn [Typed.data Typed.dtype_of].
  rewrite (zeros_like_spin_doubled _ _ _ HM).
  rewrite setitem_updn by done. cbn [rbind Typed.data Typed.dtype_of].
  by rewrite setitem_dnup by done.
Qed.

Lemma typed_pauli_block_y_run :
  Typed.pauli_block_y (Typed.TArray dt M) norb
  = Ok (typed_y n n M,
        Typed.TArray dt
          (block_layout n n
             Zero (into (Typed.np_scale (typed_y n n M) (Copp Ci)))
             (into (Typed.np_scale (typed_y n n M) Ci)) Zero)).
Proof.
  destruct (has_shape_blocks _ _ _ HM) as (Huu & Hud & Hdu & Hdd).
  pose proof (has_shape_np_full n n Czero) as H0.
  pose proof (has_shape_typed_y n n M HM) as Hy.
  assert (∀ c, has_shape n n (into (Typed.np_scale (typed_y n n M) c)))
    as Hyc by (intros c; by apply has_shape_into, has_shape_np_scale).
  unfold Typed.pauli_block_y, Typed.np_add, Typed.getitem.
  cbn [Typed.data Typed.dtype_of].
  rewrite (getitem_updn _ _ _ HM), (getitem_dnup _ _ _ HM).
  rewrite !typed_np_scale_eq.
  rewrite (typed_np_binop_has_shape _ _ _ _ _ n n)
    by (by apply has_shape_np_scale).
  cbn [rbind]. cbv zeta. fold (typed_y n n M).
  unfold Typed.setitem, Typed.zeros_like. cbn [Typed.data Typed.dtype_of].
  rewrite (zeros_like_spin_doubled _ _ _ HM).
  rewrite setitem_updn by done. cbn [rbind Typed.data Typed.dtype_of].
  by rewrite setitem_dnup by done.
Qed.

Lemma typed_pauli_block_z_run :
  Typed.pauli_block_z (Typed.TArray dt M) norb
  = Ok (typed_z dt n n M,
        Typed.TArray dt
          (block_layout n n
             (into (typed_z dt n n M)) Zero
             Zero (into (Typed.np_neg (typed_z dt n n M))))).
Proof.
  destruct (has_shape_blocks _ _ _ HM) as (Huu & Hud & Hdu & Hdd).
  pose proof (has_shape_np_full n n Czero) as H0.
  pose proof (has_shape_typed_z dt n n M HM) as Hz.
  pose proof (has_shape_into _ Hz) as Hz'.
  assert (has_shape n n (into (Typed.np_neg (typed_z dt n n M)))) as Hn
    by (by apply has_shape_into, has_shape_np_map).
  unfold Typed.pauli_block_z, Typed.np_sub, Typed.getitem.
  cbn [Typed.data Typed.dtype_of].
  rewrite (getitem_upup _ _ _ HM), (getitem_dndn _ _ _ HM).
  rewrite (typed_np_binop_has_shape _ _ _ _ _ n n) by done.
  cbn [rbind]. cbv zeta. fold (typed_z dt n n M).
  unfold Typed.setitem, Typed.zeros_like. cbn [Typed.data Typed.dtype_of].
  rewrite (zeros_like_spin_doubled _ _ _ HM).
  rewrite setitem_upup by done. cbn [rbind Typed.data Typed.dtype_of].
  by rewrite setitem_dndn by done.
Qed.
End helpers_run.

Section helpers.
Context (dt : Typed.dtype) (n : nat) (M : ndarray).
Context (MI Mx My Mz : Typed.tarray).
Hypothesis HM : spin_doubled n n M.
Hypothesis Hall :
  Typed.pauli_block_all (Typed.TArray dt M) = Ok (MI, Mx, My, Mz).

Local Abbreviation norb := (Z.of_nat n).
Local Abbreviation Zero := (np_zeros n n).
Local Abbreviation into X := (Typed.data (Typed.astype dt X)).

Lemma typed_components_eq :
  MI = typed_I dt n n M ∧ Mx = typed_x dt n n M ∧
  My = typed_y n n M ∧ Mz = typed_z dt n n M.
Proof.
  rewrite (typed_pauli_block_all_blocks _ _ _ _ HM) in Hall.
  by simplify_eq.
Qed.

(** X19: on a matrix [M] of shape [(2n, 2n)] and of element type [dt],
    [pauli_block_I M n] returns the array of element type [dt] that has the
    I component of [pauli_block_all M], converted to [dt], in both diagonal
    blocks and zero elsewhere. *)
Theorem pauli_block_I_layout :
  Typed.pauli_block_I (Typed.TArray dt M) norb
  = Ok (Typed.TArray dt (block_layout n n (into MI) Zero Zero (into MI))).
Proof.
  destruct typed_components_eq as (-> & _).
  by apply typed_pauli_block_I_run.
Qed.

(** X20: on a matrix [M] of shape [(2n, 2n)] and of element type [dt],
    [pauli_block_x M n] returns the array of element type [dt] that has the
    x component of [pauli_block_all M], converted to [dt], in both
    off-diagonal blocks and zero elsewhere. *)
Theorem pauli_block_x_layout :
  Typed.pauli_block_x (Typed.TArray dt M) norb
  = Ok (Typed.TArray dt (block_layout n n Zero (into Mx) (into Mx) Zero)).
Proof.
  destruct typed_components_eq as (_ & -> & _).
  by apply typed_pauli_block_x_run.
Qed.

(** X21: on a matrix [M] of shape [(2n, 2n)] and of element type [dt],
    [pauli_block_y M n] returns the pair of the y component [My] of
    [pauli_block_all M], which is [complex128], and the array of element
    type [dt] with [My * (-1j)] in the upper right block, [My * 1j] in the
    lower left block, both converted to [dt], and zero elsewhere. *)
Theorem pauli_block_y_layout :
  Typed.pauli_block_y (Typed.TArray dt M) norb
  = Ok (My,
        Typed.TArray dt
          (block_layout n n Zero (into (Typed.np_scale My (Copp Ci)))
                            (into (Typed.np_scale My Ci)) Zero)).
Proof.
  destruct typed_components_eq as (_ & _ & -> & _).
  by apply typed_pauli_block_y_run.
Qed.

(** X22: on a matrix [M] of shape [(2n, 2n)] and of element type [dt],
    [pauli_block_z M n] returns the pair of the z component [Mz] of
    [pauli_block_all M] and the array of element type [dt] with [Mz] in
    the upper left block, [-Mz] in the lower right block, both converted to
    [dt], and zero elsewhere. *)
Theorem pauli_block_z_layout :
  Typed.pauli_block_z (Typed.TArray dt M) norb
  = Ok (Mz,
        Typed.TArray dt
          (block_layout n n (into Mz) Zero
                            Zero (into (Typed.np_neg Mz)))).
Proof.
  destruct typed_components_eq as (_ & _ & _ & ->).
  by apply typed_pauli_block_z_run.
Qed.
End helpers.

(** *** On the integer matrix [[1, 2], [3, 4]] *)

Lemma spin_doubled_example_int64 :
  spin_doubled 1 1 (Typed.data example_int64).
Proof. literal_shape. Qed.

Lemma pauli_block_all_example_int64 :
  Typed.pauli_block_all example_int64
  = Ok (Typed.TArray Typed.float64 (np_array [[Cplx (Q2Qc (5 # 2)) 0]]),
        Typed.TArray Typed.float64 (np_array [[Cplx (Q2Qc (5 # 2)) 0]]),
        Typed.TArray Typed.complex128
          (np_array [[Cplx 0 (Q2Qc (- 1 # 2))]]),
        Typed.TArray Typed.float64 (np_array [[Cplx (Q2Qc (- 3 # 2)) 0]])).
Proof. compute_done. Qed.

(** The sum of the diagonal blocks of an [int64] matrix wraps around: on
    [[2**62, 0], [0, 2**62]] the I component is [-2**62] and the z
    component is [0], and [MI + Mz] is not the upper left entry. *)
Lemma pauli_block_all_int64_wraps :
  Typed.pauli_block_all example_int64_large
  = Ok (Typed.TArray Typed.float64 (np_array [[Cint (- 2 ^ 62) 0]]),
        Typed.TArray Typed.float64 (np_array [[Cint 0 0]]),
        Typed.TArray Typed.complex128 (np_array [[Cint 0 0]]),
        Typed.TArray Typed.float64 (np_array [[Cint 0 0]])).
Proof. compute_done. Qed.

Lemma pauli_block_I_layout_witness :
  Typed.pauli_block_I example_int64 1
  = Ok (Typed.TArray Typed.int64
          (np_array [[Cint 2 0; Cint 0 0]; [Cint 0 0; Cint 2 0]])).
Proof.
  etransitivity.
  - exact (pauli_block_I_layout Typed.int64 1 _ _ _ _ _
             spin_doubled_example_int64 pauli_block_all_example_int64).
  - compute_done.
Defined.

Lemma pauli_block_x_layout_witness :
  Typed.pauli_block_x example_int64 1
  = Ok (Typed.TArray Typed.int64
          (np_array [[Cint 0 0; Cint 2 0]; [Cint 2 0; Cint 0 0]])).
Proof.
  etransitivity.
  - exact (pauli_block_x_layout Typed.int64 1 _ _ _ _ _
             spin_doubled_example_int64 pauli_block_all_example_int64).
  - compute_done.
Defined.

Lemma pauli_block_y_layout_witness :
  Typed.pauli_block_y example_int64 1
  = Ok (Typed.TArray Typed.complex128
          (np_array [[Cplx 0 (Q2Qc (- 1 # 2))]]),
        Typed.TArray Typed.int64
          (np_array [[Cint 0 0; Cint 0 0]; [Cint 0 0; Cint 0 0]])).
Proof.
  etransitivity.
  - exact (pauli_block_y_layout Typed.int64 1 _ _ _ _ _
             spin_doubled_example_int64 pauli_block_all_example_int64).
  - compute_done.
Defined.

Lemma pauli_block_z_layout_witness :
  Typed.pauli_block_z example_int64 1
  = Ok (Typed.TArray Typed.float64 (np_array [[Cplx (Q2Qc (- 3 # 2)) 0]]),
        Typed.TArray Typed.int64
          (np_array [[Cint (-1) 0; Cint 0 0]; [Cint 0 0; Cint 1 0]])).
Proof.
  etransitivity.
  - exact (pauli_block_z_layout Typed.int64 1 _ _ _ _ _
             spin_doubled_example_int64 pauli_block_all_example_int64).
  - compute_done.
Defined.

(** ** The four embedded components add up to the matrix *)

Lemma zip2_zip_app (f : complex → complex → complex)
    (X X' Y Y' : list (list complex)) :
  same_shape X X' →
  zip_with (zip_with f) (zip_with app X Y) (zip_with app X' Y')
  = zip_with app (zip_with (zip_with f) X X') (zip_with (zip_with f) Y Y').
Proof.
  intros Hs. revert Y Y'.
  induction Hs as [|x x' X X' Hx _ IH]; intros [|y Y] [|y' Y']; simpl;
    try done.
  rewrite IH. f_equal. apply zip_with_app, Hx.
Qed.

Lemma np_binop_block_layout f n m A B C D A' B' C' D' :
  has_shape n m A → has_shape n m B → has_shape n m C → has_shape n m D →
  has_shape n m A' → has_shape n m B' → has_shape n m C' →
  has_shape n m D' →
  np_binop f (block_layout n m A B C D) (block_layout n m A' B' C' D')
  = Ok (block_layout n m
          (NDArray n m (zip_with (zip_with f) (rows A) (rows A')))
          (NDArray n m (zip_with (zip_with f) (rows B) (rows B')))
          (NDArray n m (zip_with (zip_with f) (rows C) (rows C')))
          (NDArray n m (zip_with (zip_with f) (rows D) (rows D')))).
Proof.
  intros HA HB HC HD HA' HB' HC' HD'.
  destruct (spin_doubled_block_layout n m A B C D) as (Hwf & _); [done..|].
  destruct (spin_doubled_block_layout n m A' B' C' D') as (Hwf' & _);
    [done..|].
  rewrite np_binop_same by done. unfold block_layout; simpl. do 2 f_equal.
  rewrite zip_with_app
    by (by rewrite !(length_zip_app_rows n m)).
  rewrite !zip2_zip_app by (by eapply has_shape_same_shape). done.
Qed.

Lemma zip_with_const {A B C} (c : C) (l : list A) (k : list B) (n : nat) :
  length l = n → length k = n → zip_with (λ _ _, c) l k = replicate n c.
Proof.
  revert k n. induction l as [|x l IH]; intros [|y k] [|n]; simpl;
    try done.
  intros. f_equal. apply IH; lia.
Qed.

Lemma zeros_zip2 n m X Y :
  has_shape n m X → has_shape n m Y →
  rows (np_zeros n m)
  = zip_with (zip_with (λ _ _, Czero)) (rows X) (rows Y).
Proof.
  intros HX HY. pose proof (has_shape_same_shape _ _ _ _ HX HY) as Hs.
  destruct HX as ([HlX HfX] & HrX & HcX). simpl.
  rewrite <-HrX, <-HlX. rewrite HcX in HfX. clear HlX HrX HcX HY.
  induction Hs as [|x y X' Y' Hxy _ IH]; simpl; [done|].
  apply Forall_cons in HfX as [Hx HfX].
  rewrite <-IH by done. f_equal. symmetry. apply zip_with_const; lia.
Qed.

Lemma block_layout_blocks n m M :
  spin_doubled n m M →
  block_layout n m (upup n m M) (updn n m M) (dnup n m M) (dndn n m M) = M.
Proof.
  intros HM. pose proof (np_block_blocks _ _ _ HM) as Hb.
  assert (∀ X, wf X → nrows X = n → ncols X = m → has_shape n m X) as Hs
    by (by intros X ? ? ?; split).
  rewrite (np_block_layout n m) in Hb by (apply Hs; eauto with wf).
  by injection Hb.
Qed.

Lemma np_map_id A : np_map (λ x, x) A = A.
Proof.
  destruct A as [r c X]. unfold np_map; simpl. f_equal.
  rewrite <-(list_fmap_id X) at 2. apply list_fmap_ext.
  intros _ row _. apply list_fmap_id.
Qed.

Lemma fmap_zip_app (g : complex → complex) (X Y : list (list complex)) :
  fmap (M:=list) g <$> zip_with app X Y
  = zip_with app (fmap (M:=list) g <$> X) (fmap (M:=list) g <$> Y).
Proof.
  revert Y. induction X as [|x X IH]; intros [|y Y]; simpl; try done.
  by rewrite fmap_app, IH.
Qed.

Lemma np_map_block_layout g n m A B C D :
  np_map g (block_layout n m A B C D)
  = block_layout n m (np_map g A) (np_map g B) (np_map g C) (np_map g D).
Proof.
  unfold np_map, block_layout; simpl. f_equal.
  by rewrite fmap_app, !fmap_zip_app.
Qed.

Lemma zip2_fst_map (g : complex → complex) X Y :
  same_shape X Y →
  zip_with (zip_with (λ a _, g a)) X Y = fmap (M:=list) g <$> X.
Proof.
  intros Hs. rewrite <-(zip2_fst X Y) at 2 by done.
  by rewrite (zip2_fmap_out g).
Qed.

Lemma zip2_snd_map (g : complex → complex) X Y :
  same_shape X Y →
  zip_with (zip_with (λ _ b, g b)) X Y = fmap (M:=list) g <$> Y.
Proof.
  intros Hs. rewrite <-(zip2_snd X Y) at 2 by done.
  by rewrite (zip2_fmap_out g).
Qed.

(** An array that holds scalars of its element type is unchanged by the
    conversion to it. *)
Lemma cast_holds dt x :
  dt ≠ Typed.int64 → Typed.holds dt x → Typed.cast dt x = x.
Proof.
  destruct dt, x as [r i]; simpl; try done. by intros _ ->.
Qed.

Lemma np_map_cast_valid dt M :
  dt ≠ Typed.int64 → Typed.valid (Typed.TArray dt M) →
  np_map (Typed.cast dt) M = M.
Proof.
  intros Hdt [_ Hv]. simpl in Hv. rewrite <-(np_map_id M) at 2.
  unfold np_map. f_equal.
  apply Forall_fmap_ext_1. eapply Forall_impl; [exact Hv|].
  intros row Hrow. simpl. apply Forall_fmap_ext_1.
  eapply Forall_impl; [exact Hrow|]. intros x Hx. by apply cast_holds.
Qed.

(** Floating-point sums have the element type of their operands and do not
    wrap around. *)
Lemma typed_np_add_block_layout dt n m A B C D A' B' C' D' :
  dt ≠ Typed.int64 →
  has_shape n m A → has_shape n m B → has_shape n m C → has_shape n m D →
  has_shape n m A' → has_shape n m B' → has_shape n m C' →
  has_shape n m D' →
  Typed.np_add (Typed.TArray dt (block_layout n m A B C D))
               (Typed.TArray dt (block_layout n m A' B' C' D'))
  = Ok (Typed.TArray dt
          (block_layout n m
             (NDArray n m (zip_with (zip_with Cadd) (rows A) (rows A')))
             (NDArray n m (zip_with (zip_with Cadd) (rows B) (rows B')))
             (NDArray n m (zip_with (zip_with Cadd) (rows C) (rows C')))
             (NDArray n m (zip_with (zip_with Cadd) (rows D) (rows D'))))).
Proof.
  intros Hdt HA HB HC HD HA' HB' HC' HD'.
  unfold Typed.np_add, Typed.np_binop. cbn [Typed.data Typed.dtype_of].
  rewrite np_binop_block_layout by done. cbn [rbind].
  rewrite promote_idemp. do 2 f_equal.
  destruct dt; [done|apply np_map_id..].
Qed.

Section sum_entries.
Context (dt : Typed.dtype).
Hypothesis Hdt : dt ≠ Typed.int64.

Local Abbreviation c := (Typed.cast dt).
Local Abbreviation o := (Typed.overflow (Typed.promote dt dt)).
Local Abbreviation f := (Typed.promote (Typed.promote dt dt) Typed.float64).

Ltac by_dtype :=
  destruct dt; [done|..]; unfold Typed.cast, Typed.overflow; simpl; cx.

Lemma sum_upup a d :
  Cadd (Cadd (Cadd (c (half (o (Cadd a d)))) Czero) Czero)
       (c (half (o (Csub a d)))) = c a.
Proof. by_dtype. Qed.
Lemma sum_updn b d :
  Cadd (Cadd (Cadd Czero (c (half (o (Cadd b d)))))
             (c (Cmul (half (Cadd (Cmul b Ci) (Cmul d (Copp Ci))))
                      (Copp Ci))))
       Czero = c b.
Proof. by_dtype. Qed.
Lemma sum_dnup b d :
  Cadd (Cadd (Cadd Czero (c (half (o (Cadd b d)))))
             (c (Cmul (half (Cadd (Cmul b Ci) (Cmul d (Copp Ci)))) Ci)))
       Czero = c d.
Proof. by_dtype. Qed.
Lemma sum_dndn a d :
  Cadd (Cadd (Cadd (c (half (o (Cadd a d)))) Czero) Czero)
       (c (Typed.overflow f (Copp (half (o (Csub a d)))))) = c d.
Proof. by_dtype. Qed.
End sum_entries.

Section sum_rows.
Context (dt : Typed.dtype) (n : nat) (M : ndarray).

Local Abbreviation c := (Typed.cast dt).
Local Abbreviation o := (Typed.overflow (Typed.promote dt dt)).
Local Abbreviation f := (Typed.promote (Typed.promote dt dt) Typed.float64).
Local Abbreviation into X := (Typed.data (Typed.astype dt X)).

Lemma rows_into_typed_I :
  rows (into (typed_I dt n n M))
  = zip_with (zip_with (λ a d, c (half (o (Cadd a d)))))
             (rows (upup n n M)) (rows (dndn n n M)).
Proof.
  unfold typed_I, typed_zip, Typed.astype, Typed.np_divr, np_divr, np_map.
  cbn [Typed.data rows]. by rewrite !zip2_fmap_out.
Qed.

Lemma rows_into_typed_x :
  rows (into (typed_x dt n n M))
  = zip_with (zip_with (λ b d, c (half (o (Cadd b d)))))
             (rows (updn n n M)) (rows (dnup n n M)).
Proof.
  unfold typed_x, typed_zip, Typed.astype, Typed.np_divr, np_divr, np_map.
  cbn [Typed.data rows]. by rewrite !zip2_fmap_out.
Qed.

Lemma rows_into_typed_y k :
  rows (into (Typed.np_scale (typed_y n n M) k))
  = zip_with (zip_with
                (λ b d, c (Cmul (half (Cadd (Cmul b Ci) (Cmul d (Copp Ci))))
                                k)))
             (rows (updn n n M)) (rows (dnup n n M)).
Proof.
  unfold typed_y, typed_zip, Typed.astype, Typed.np_scale, Typed.np_divr,
    np_scale, np_divr, np_map.
  cbn [Typed.data rows Typed.overflow].
  rewrite !zip2_fmap_out.
  by rewrite (zip2_fmap_l (λ x, Cmul x Ci)),
    (zip2_fmap_r (λ x, Cmul x (Copp Ci))).
Qed.

Lemma rows_into_typed_z :
  rows (into (typed_z dt n n M))
  = zip_with (zip_with (λ a d, c (half (o (Csub a d)))))
             (rows (upup n n M)) (rows (dndn n n M)).
Proof.
  unfold typed_z, typed_zip, Typed.astype, Typed.np_divr, np_divr, np_map.
  cbn [Typed.data rows]. by rewrite !zip2_fmap_out.
Qed.

Lemma rows_into_typed_neg_z :
  rows (into (Typed.np_neg (typed_z dt n n M)))
  = zip_with (zip_with
                (λ a d, c (Typed.overflow f (Copp (half (o (Csub a d)))))))
             (rows (upup n n M)) (rows (dndn n n M)).
Proof.
  unfold typed_z, typed_zip, Typed.astype, Typed.np_neg, Typed.np_divr,
    np_divr, np_map.
  cbn [Typed.data Typed.dtype_of rows]. by rewrite !zip2_fmap_out.
Qed.
End sum_rows.

(** X23: on a matrix [M] of shape [(2n, 2n)] whose element type is
    [float64] or [complex128], the four helpers return, and the four
    full-size arrays they return add up to [M]. *)
Theorem pauli_block_helpers_sum (dt : Typed.dtype) (n : nat) (M : ndarray) :
  dt ≠ Typed.int64 →
  Typed.valid (Typed.TArray dt M) →
  spin_doubled n n M →
  ∃ rI rx ty ry tz rz,
    Typed.pauli_block_I (Typed.TArray dt M) (Z.of_nat n) = Ok rI ∧
    Typed.pauli_block_x (Typed.TArray dt M) (Z.of_nat n) = Ok rx ∧
    Typed.pauli_block_y (Typed.TArray dt M) (Z.of_nat n) = Ok (ty, ry) ∧
    Typed.pauli_block_z (Typed.TArray dt M) (Z.of_nat n) = Ok (tz, rz) ∧
    typed_sum4 rI rx ry rz = Ok (Typed.TArray dt M).
Proof.
  intros Hdt Hv HM. do 6 eexists.
  split; [by apply typed_pauli_block_I_run|].
  split; [by apply typed_pauli_block_x_run|].
  split; [by apply typed_pauli_block_y_run|].
  split; [by apply typed_pauli_block_z_run|].
  destruct (has_shape_blocks _ _ _ HM) as (Huu & Hud & Hdu & Hdd).
  pose proof (has_shape_np_full n n Czero) as H0.
  pose proof (has_shape_into dt n _ (has_shape_typed_I dt n n M HM)) as HI.
  pose proof (has_shape_into dt n _ (has_shape_typed_x dt n n M HM)) as Hx.
  pose proof (has_shape_into dt n _ (has_shape_typed_z dt n n M HM)) as Hz.
  assert (∀ k, has_shape n n
            (Typed.data (Typed.astype dt
               (Typed.np_scale (typed_y n n M) k)))) as Hy.
  { intros k. apply has_shape_into, has_shape_np_scale.
    by apply has_shape_typed_y. }
  assert (has_shape n n
            (Typed.data (Typed.astype dt
               (Typed.np_neg (typed_z dt n n M))))) as Hn.
  { apply has_shape_into, has_shape_np_map. by apply has_shape_typed_z. }
  pose proof (same_shape_diag _ _ _ HM) as Sd.
  pose proof (same_shape_offdiag _ _ _ HM) as So.
  unfold typed_sum4.
  rewrite typed_np_add_block_layout by done. cbn [rbind].
  rewrite typed_np_add_block_layout by (done || by apply has_shape_zip2).
  cbn [rbind].
  rewrite typed_np_add_block_layout
    by (done || by repeat apply has_shape_zip2).
  do 2 f_equal.
  etransitivity; [|exact (np_map_cast_valid dt M Hdt Hv)].
  etransitivity;
    [|exact (f_equal (np_map (Typed.cast dt)) (block_layout_blocks n n M HM))].
  rewrite np_map_block_layout. cbn [rows].
  f_equal.
  - rewrite rows_into_typed_I, rows_into_typed_z.
    rewrite (zeros_zip2 n n _ _ Huu Hdd). unfold np_map, upup; cbn [rows].
    f_equal. rewrite !zip2_zip2.
    rewrite (zip2_ext _ (λ a _, Typed.cast dt a)) by by apply sum_upup.
    by rewrite zip2_fst_map.
  - rewrite rows_into_typed_x, rows_into_typed_y.
    rewrite (zeros_zip2 n n _ _ Hud Hdu). unfold np_map, updn; cbn [rows].
    f_equal. rewrite !zip2_zip2.
    rewrite (zip2_ext _ (λ b _, Typed.cast dt b)) by by apply sum_updn.
    by rewrite zip2_fst_map.
  - rewrite rows_into_typed_x, rows_into_typed_y.
    rewrite (zeros_zip2 n n _ _ Hud Hdu). unfold np_map, dnup; cbn [rows].
    f_equal. rewrite !zip2_zip2.
    rewrite (zip2_ext _ (λ _ d, Typed.cast dt d)) by by apply sum_dnup.
    by rewrite zip2_snd_map.
  - rewrite rows_into_typed_I, rows_into_typed_neg_z.
    rewrite (zeros_zip2 n n _ _ Huu Hdd). unfold np_map, dndn; cbn [rows].
    f_equal. rewrite !zip2_zip2.
    rewrite (zip2_ext _ (λ _ d, Typed.cast dt d)) by by apply sum_dndn.
    by rewrite zip2_snd_map.
Qed.

Lemma pauli_block_helpers_sum_witness :
  ∃ rI rx ty ry tz rz,
    Typed.pauli_block_I example_float64 1 = Ok rI ∧
    Typed.pauli_block_x example_float64 1 = Ok rx ∧
    Typed.pauli_block_y example_float64 1 = Ok (ty, ry) ∧
    Typed.pauli_block_z example_float64 1 = Ok (tz, rz) ∧
    typed_sum4 rI rx ry rz = Ok example_float64.
Proof.
  apply (pauli_block_helpers_sum Typed.float64 1 (Typed.data example_float64)).
  - done.
  - split; [literal_shape|]. simpl. repeat constructor.
  - literal_shape.
Defined.

(** On the integer matrix [[1, 2], [3, 4]] the halves are rounded toward
    zero when they are stored, and the four arrays add up to
    [[1, 2], [2, 3]]. *)
Lemma pauli_block_helpers_int64 :
  ∃ rI rx ty ry tz rz,
    Typed.pauli_block_I example_int64 1 = Ok rI ∧
    Typed.pauli_block_x example_int64 1 = Ok rx ∧
    Typed.pauli_block_y example_int64 1 = Ok (ty, ry) ∧
    Typed.pauli_block_z example_int64 1 = Ok (tz, rz) ∧
    typed_sum4 rI rx ry rz
    = Ok (Typed.TArray Typed.int64
            (np_array [[Cint 1 0; Cint 2 0]; [Cint 2 0; Cint 3 0]])).
Proof.
  exists
    (Typed.TArray Typed.int64
       (np_array [[Cint 2 0; Cint 0 0]; [Cint 0 0; Cint 2 0]])),
    (Typed.TArray Typed.int64
       (np_array [[Cint 0 0; Cint 2 0]; [Cint 2 0; Cint 0 0]])),
    (Typed.TArray Typed.complex128 (np_array [[Cplx 0 (Q2Qc (- 1 # 2))]])),
    (Typed.TArray Typed.int64
       (np_array [[Cint 0 0; Cint 0 0]; [Cint 0 0; Cint 0 0]])),
    (Typed.TArray Typed.float64 (np_array [[Cplx (Q2Qc (- 3 # 2)) 0]])),
    (Typed.TArray Typed.int64
       (np_array [[Cint (-1) 0; Cint 0 0]; [Cint 0 0; Cint 1 0]])).
  repeat apply conj; compute_done.
Qed.

(** ** Locations that a store does not hold *)

Module StoreHelpers.
Import Store StoreFacts.

Lemma fresh_lookup_None (h : heap) : h !! fresh (dom h) = None.
Proof. apply not_elem_of_dom, is_fresh. Qed.

Lemma fresh_ne (h : heap) l v : h !! l = Some v → fresh (dom h) ≠ l.
Proof. intros Hl <-. by rewrite fresh_lookup_None in Hl. Qed.

End StoreHelpers.

Module StoreBlocks.
Abbreviation pauli_block_all_value := pauli_block_all.
Import Store StoreFacts StoreHelpers.

(** X28: started on a store that holds [Mv] at [M], the store-level
    [pauli_block_all] leaves every array of that store as it was; it raises
    when the value-level function raises on [Mv], and otherwise returns
    four new arrays, distinct from each other, that hold the four values
    of the value-level result. *)
Theorem pauli_block_all_store (h : heap) (M : loc) (Mv : ndarray) :
  h !! M = Some Mv →
  refines4 h (Store.pauli_block_all M h) (pauli_block_all_value Mv).
Proof.
  intros HM. unfold Store.pauli_block_all, pauli_block_all_value, refines4.
  rewrite (bind_load _ _ _ _ HM), bind_lift.
  destruct (py_floordiv _ _) as [hs|e]; cbn [rbind fst snd];
    [|split; [apply unchanged_refl|done]].
  rewrite bind_lift.
  destruct (unpack2 hs) as [[norb1 norb2]|e]; cbn [rbind fst snd];
    [|split; [apply unchanged_refl|done]].
  rewrite !(bind_load_slice _ _ _ _ _ _ HM), bind_lift.
  destruct (np_add _ _) as [tI|e]; cbn [rbind fst snd];
    [|split; [apply unchanged_refl|done]].
  rewrite bind_alloc.
  set (lI := fresh (dom h)). set (h1 := <[lI := np_divr tI 2]> h).
  assert (unchanged h h1) as Hu1 by apply unchanged_alloc, unchanged_refl.
  assert (h1 !! lI = Some (np_divr tI 2)) as H1 by apply lookup_insert_eq.
  rewrite !(bind_load_slice _ _ _ _ _ _ (Hu1 _ _ HM)), bind_lift.
  destruct (np_add _ _) as [tx|e]; cbn [rbind fst snd]; [|by split].
  rewrite bind_alloc.
  set (lx := fresh (dom h1)). set (h2 := <[lx := np_divr tx 2]> h1).
  assert (unchanged h h2) as Hu2 by by apply unchanged_alloc.
  assert (h2 !! lx = Some (np_divr tx 2)) as H2 by apply lookup_insert_eq.
  assert (h2 !! lI = Some (np_divr tI 2)) as H2I by by apply lookup_alloc_ne.
  rewrite !(bind_load_slice _ _ _ _ _ _ (Hu2 _ _ HM)), bind_lift.
  destruct (np_add _ _) as [ty|e]; cbn [rbind fst snd]; [|by split].
  rewrite bind_alloc.
  set (ly := fresh (dom h2)). set (h3 := <[ly := np_divr ty 2]> h2).
  assert (unchanged h h3) as Hu3 by by apply unchanged_alloc.
  assert (h3 !! ly = Some (np_divr ty 2)) as H3 by apply lookup_insert_eq.
  assert (h3 !! lx = Some (np_divr tx 2)) as H3x by by apply lookup_alloc_ne.
  assert (h3 !! lI = Some (np_divr tI 2)) as H3I by by apply lookup_alloc_ne.
  rewrite !(bind_load_slice _ _ _ _ _ _ (Hu3 _ _ HM)), bind_lift.
  destruct (np_sub _ _) as [tz|e]; cbn [rbind fst snd]; [|by split].
  rewrite bind_alloc.
  set (lz := fresh (dom h3)). set (h4 := <[lz := np_divr tz 2]> h3).
  assert (unchanged h h4) as Hu4 by by apply unchanged_alloc.
  split; [done|]. cbn [fst snd unit_].
  exists lI, lx, ly, lz. split; [done|].
  pose proof (fresh_ne h1 lI _ H1) as Nx.
  pose proof (fresh_ne h2 lI _ H2I) as NyI.
  pose proof (fresh_ne h2 lx _ H2) as Nyx.
  pose proof (fresh_ne h3 lI _ H3I) as NzI.
  pose proof (fresh_ne h3 lx _ H3x) as Nzx.
  pose proof (fresh_ne h3 ly _ H3) as Nzy.
  fold lx in Nx. fold ly in NyI, Nyx. fold lz in NzI, Nzx, Nzy.
  assert (h !! lI = None) as FI by apply fresh_lookup_None.
  assert (h1 !! lx = None) as Fx1 by apply fresh_lookup_None.
  assert (h2 !! ly = None) as Fy2 by apply fresh_lookup_None.
  assert (h3 !! lz = None) as Fz3 by apply fresh_lookup_None.
  assert (h !! lx = None) as Fx.
  { unfold h1 in Fx1. by rewrite lookup_insert_ne in Fx1. }
  assert (h !! ly = None) as Fy.
  { unfold h2, h1 in Fy2. by rewrite !lookup_insert_ne in Fy2. }
  assert (h !! lz = None) as Fz.
  { unfold h3, h2, h1 in Fz3. by rewrite !lookup_insert_ne in Fz3. }
  split.
  { repeat constructor; set_solver. }
  split; [by repeat constructor|].
  split; [by apply lookup_alloc_ne|].
  split; [by apply lookup_alloc_ne|].
  split; [by apply lookup_alloc_ne|].
  apply lookup_insert_eq.
Qed.

End StoreBlocks.

Lemma pauli_block_all_store_witness :
  refines4 example_store (Store.pauli_block_all 1%positive example_store)
           (pauli_block_all example_2x2).
Proof.
  apply (StoreBlocks.pauli_block_all_store example_store 1%positive
           example_2x2).
  reflexivity.
Defined.

(** * Rounding in binary64 *)

Module Binary64Facts.
Import PrimFloat Binary64.

(** C1, in binary64: at [[0.1, 0], [0, 0.2]] the blocks are
    [MI = 0.15000000000000002] and [Mz = -0.05], and the reassembled matrix
    has [0.10000000000000002] where the input has [0.1]: the round trip is
    not exact. *)
Lemma pauli_block_all_roundtrip_binary64 :
  ∃ MI Mx My Mz M',
    pauli_block_all example_tenths = Ok (MI, Mx, My, Mz) ∧
    pauli_reassemble MI Mx My Mz = Ok M' ∧
    array_equal M' example_tenths = false.
Proof.
  do 5 eexists. split; [vm_compute; reflexivity|].
  split; vm_compute; reflexivity.
Qed.

(** C4, in binary64: at [[1e16, 0], [0, 1]] both traces round to [1e16],
    the coefficients are [(5e15, 0, 0, 5e15)], and the recomposed matrix has
    [0] where the input has [1]: the difference is not within [1e-10]. *)
Lemma pauli_decomp_roundtrip_binary64 :
  ∃ I x y z M',
    pauli_decomp example_large = Ok (I, x, y, z) ∧
    pauli_recompose I x y z = Ok M' ∧
    allclose 1e-10 M' example_large = false.
Proof.
  do 5 eexists. split; [vm_compute; reflexivity|].
  split; vm_compute; reflexivity.
Qed.

End Binary64Facts.
